(** * usegs: a global state registry with component subscriptions

    A shallow embedding of [src/utils.js] ([makeNewValue]) and of the state
    manager ([registerGS], [initGS], [getGS], [setGS], [useGS]).

    Modelling conventions.
    - The module-level object [GS] is used as a map from keys to entries; it
      is a [gmap string Entry] of its own properties.  This is exact for the
      keys that [GS] does not inherit from [Object.prototype]; for the
      inherited ones the registry functions are given a second time, on the
      object with what it inherits ([getGS_js], [setGS_js]), and shown to
      agree with the first on the other keys.
    - JavaScript values are the inductive type [value]; numbers are the
      integer-valued ones plus [NaN].  Values are compared by content; the
      identity of the object that the merge builds is followed by
      [makeNewValue_ref].
    - The listener arrays [[val, setVal]] are compared by identity by the
      [Set] that stores them, so every array literal gets a fresh reference
      from an allocation counter kept in the world.
    - The React hooks used by [useGS] ([useState], [useRef], [useEffect])
      are the host; the per-instance hook state is a [Fiber], and the host
      actions (mount, re-render, commit of effects, unmount) are explicit
      operations on the world. *)

From stdpp Require Import gmap strings list fin_maps pretty.
From Stdlib Require Import ZArith Lia.

Set Warnings "-register-all".
Local Open Scope string_scope.
Local Open Scope list_scope.
Local Open Scope nat_scope.

(** ** JavaScript values *)

Inductive value : Type :=
  | VUndefined
  | VNull
  | VBool (b : bool)
  | VNum (n : Z)
  | VNaN
  | VStr (s : string)
  | VArr (xs : list value)
  | VObj (props : gmap string value).

(** [!v] is [negb (truthy v)]: the falsy values are [undefined], [null],
    [false], [0], [NaN] and the empty string. *)
Definition truthy (v : value) : bool :=
  match v with
  | VUndefined | VNull | VNaN => false
  | VBool b => b
  | VNum n => negb (n =? 0)%Z
  | VStr s => negb (String.eqb s "")
  | VArr _ | VObj _ => true
  end.

Definition typeof (v : value) : string :=
  match v with
  | VUndefined => "undefined"
  | VNull | VArr _ | VObj _ => "object"
  | VBool _ => "boolean"
  | VNum _ | VNaN => "number"
  | VStr _ => "string"
  end.

Definition Array_isArray (v : value) : bool :=
  match v with VArr _ => true | _ => false end.

Fixpoint chars (s : string) : list string :=
  match s with
  | EmptyString => []
  | String c r => String c EmptyString :: chars r
  end.

(** The properties [0], [1], ... of an array or of a string. *)
Definition indexed {A} (f : A → value) (xs : list A) : gmap string value :=
  list_to_map (imap (λ i x, (pretty i, f x)) xs).

(** The own enumerable properties that an object spread [{...v}] copies. *)
Definition ownEnumerable (v : value) : gmap string value :=
  match v with
  | VObj m => m
  | VArr xs => indexed id xs
  | VStr s => indexed VStr (chars s)
  | _ => ∅
  end.

(** [{ ...a, ...b }]: the properties of [a], overwritten by those of [b]. *)
Definition spread2 (a b : value) : value :=
  VObj (ownEnumerable b ∪ ownEnumerable a).

(** utils.js, [makeNewValue]. *)
Definition makeNewValue (val newVal : value) : value :=
  if negb (truthy val) || negb (truthy newVal) then newVal
  else if String.eqb (typeof val) "object" && negb (Array_isArray val)
       then spread2 val newVal
       else newVal.

(** The shapes the specification speaks of. *)
Definition is_record (v : value) : bool :=
  match v with VObj _ => true | _ => false end.


(** ** Numbers

    A JavaScript number is a double.  On integers, [a + b] is the exact sum
    rounded to 53 significant bits, ties to the even significand. *)
Definition round53 (z : Z) : Z :=
  let a := Z.abs z in
  if (a <? 2 ^ 53)%Z then z
  else
    let k := (Z.log2 a - 52)%Z in
    let q := (a / 2 ^ k)%Z in
    let r := (a mod 2 ^ k)%Z in
    let half := (2 ^ (k - 1))%Z in
    (Z.sgn z *
     (if (r <? half)%Z || ((r =? half)%Z && Z.even q)
      then q * 2 ^ k
      else (q + 1) * 2 ^ k))%Z.

Definition Number_add (a b : Z) : Z := round53 (a + b).

(** ** Listener handles and the [Set] holding them *)

(** The array [[val, setVal]].  [h_ref] is the identity of the array object;
    [h_setVal] names the component instance whose state setter it holds. *)
Record Handle : Type := mkHandle {
  h_ref : nat;
  h_val : Z;
  h_setVal : nat
}.

Definition same_ref (h x : Handle) : bool := (h_ref x =? h_ref h)%nat.

(** A JavaScript [Set] of objects: insertion ordered, members compared by
    identity. *)
Definition Set_has (h : Handle) (s : list Handle) : bool :=
  existsb (same_ref h) s.

Definition Set_add (h : Handle) (s : list Handle) : list Handle :=
  if Set_has h s then s else s ++ [h].

Fixpoint Set_delete (h : Handle) (s : list Handle) : list Handle :=
  match s with
  | [] => []
  | x :: s' => if same_ref h x then Set_delete h s' else x :: Set_delete h s'
  end.

(** ** The world: registry, heap counter, host state, trace *)

Record Entry : Type := mkEntry {
  value_of : value;
  listeners : list Handle
}.

(** The closure returned by the effect of [useGS]; it captures [key],
    [val] and [setVal]. *)
Record Cleanup : Type := mkCleanup {
  c_key : string;
  c_val : Z;
  c_setVal : nat
}.

(** The hook state React keeps for one component instance. *)
Record Fiber : Type := mkFiber {
  f_val : Z;                          (* state of [useState(0)] *)
  f_isFirstRender : bool;             (* [isFirstRender.current] *)
  f_deps : option (string * Z);       (* deps of the last effect that ran *)
  f_cleanup : option Cleanup;         (* what that effect returned *)
  f_pending : option (string * Z);    (* effect of the latest render, not yet committed *)
  f_mounted : bool
}.

Inductive Event : Type :=
  | EvStore (key : string) (v : value)   (* [GS[key].value = v] *)
  | EvNotify (h : Handle).               (* [listener[1](...)] *)

Record World : Type := mkWorld {
  GS : gmap string Entry;
  next_ref : nat;
  fibers : list Fiber;
  log : list Event
}.

Definition world0 : World := mkWorld ∅ 0 [] [].

Definition with_GS (g : gmap string Entry) (w : World) : World :=
  mkWorld g (next_ref w) (fibers w) (log w).
Definition with_fibers (fs : list Fiber) (w : World) : World :=
  mkWorld (GS w) (next_ref w) fs (log w).

(** ** A state and error monad over the world

    [None] is an uncaught [TypeError]. *)

Definition M (A : Type) : Type := World → option (A * World).

Definition ret {A} (a : A) : M A := λ w, Some (a, w).
Definition bind {A B} (m : M A) (k : A → M B) : M B :=
  λ w, match m w with
       | Some (a, w') => k a w'
       | None => None
       end.

Notation "'let!' x ':=' m 'in' k" := (bind m (λ x, k))
  (at level 10, x name, m at level 100, k at level 200, only parsing).
Notation "'run!' m 'in' k" := (bind m (λ _, k))
  (at level 10, m at level 100, k at level 200, only parsing).

Fixpoint forEach {A} (xs : list A) (f : A → M unit) : M unit :=
  match xs with
  | [] => ret tt
  | x :: xs' => run! f x in forEach xs' f
  end.

Definition when (b : bool) (m : M unit) : M unit := if b then m else ret tt.

(** [GS[key]], which is [undefined] for a key without entry. *)
Definition GS_lookup (key : string) : M (option Entry) :=
  λ w, Some (GS w !! key, w).

(** [!GS[key]]: an entry is an object, hence truthy; [undefined] is falsy. *)
Definition not_entry (cur : option Entry) : bool :=
  match cur with
  | None => true
  | Some _ => false
  end.

(** [GS[key]] in a position where a property of it is read or written. *)
Definition GS_entry (key : string) : M Entry :=
  λ w, match GS w !! key with
       | Some e => Some (e, w)
       | None => None
       end.

(** [GS[key] = e]. *)
Definition GS_assign (key : string) (e : Entry) : M unit :=
  λ w, Some (tt, with_GS (<[key := e]> (GS w)) w).

Definition emit (ev : Event) : M unit :=
  λ w, Some (tt, mkWorld (GS w) (next_ref w) (fibers w) (log w ++ [ev])).

(** [GS[key].value = v]. *)
Definition GS_set_value (key : string) (v : value) : M unit :=
  let! e := GS_entry key in
  run! GS_assign key (mkEntry v (listeners e)) in
  emit (EvStore key v).

(** The array literal [[val, setVal]]: a new object. *)
Definition newArray (val : Z) (setVal : nat) : M Handle :=
  λ w, Some (mkHandle (next_ref w) val setVal,
             mkWorld (GS w) (S (next_ref w)) (fibers w) (log w)).

(** [alter] leaves the list alone when there is no instance [i]. *)
Definition modifyFiber (i : nat) (g : Fiber → Fiber) : M unit :=
  λ w, Some (tt, with_fibers (alter g i (fibers w)) w).

Definition set_val (v : Z) (f : Fiber) : Fiber :=
  mkFiber v (f_isFirstRender f) (f_deps f) (f_cleanup f) (f_pending f) (f_mounted f).

(** The state setter of instance [i] applied to an updater function.  React
    ignores it once the instance is unmounted. *)
Definition setVal (i : nat) (updater : Z → Z) : M unit :=
  modifyFiber i (λ f, if f_mounted f then set_val (updater (f_val f)) f else f).

(** ** The state manager *)

Definition registerGS (key : string) (v : value) : M unit :=
  GS_assign key (mkEntry v []).

(** [Object.entries(initialState).forEach(([key, value]) => registerGS(key, value))].
    The keys of an object are distinct, so the order of the entries does not
    show in the registry. *)
Definition initGS (initialState : gmap string value) : M unit :=
  forEach (map_to_list initialState) (λ kv, registerGS kv.1 kv.2).

Definition getGS (key : string) : M value :=
  let! cur := GS_lookup key in
  if not_entry cur then ret VNull
  else
    let! e := GS_entry key in
    ret (value_of e).

(** [listener[1]((prev) => prev + 1)] *)
Definition notify (listener : Handle) : M unit :=
  run! emit (EvNotify listener) in
  setVal (h_setVal listener) (λ prev, Number_add prev 1).

Definition setGS (key : string) (newValue : value) : M unit :=
  let! cur := GS_lookup key in
  if not_entry cur then registerGS key newValue
  else
    let! e := GS_entry key in
    run! GS_set_value key (makeNewValue (value_of e) newValue) in
    let! e' := GS_entry key in
    forEach (listeners e') notify.

(** ** The hook and its host *)

Definition getFiber (i : nat) : M Fiber :=
  λ w, match fibers w !! i with
       | Some f => Some (f, w)
       | None => None
       end.

Definition set_isFirstRender (b : bool) (f : Fiber) : Fiber :=
  mkFiber (f_val f) b (f_deps f) (f_cleanup f) (f_pending f) (f_mounted f).
Definition set_pending (p : option (string * Z)) (f : Fiber) : Fiber :=
  mkFiber (f_val f) (f_isFirstRender f) (f_deps f) (f_cleanup f) p (f_mounted f).
Definition set_effect (d : string * Z) (c : option Cleanup) (f : Fiber) : Fiber :=
  mkFiber (f_val f) (f_isFirstRender f) (Some d) c None (f_mounted f).
Definition set_unmounted (f : Fiber) : Fiber :=
  mkFiber (f_val f) (f_isFirstRender f) (f_deps f) None None false.

(** [const [val, setVal] = React.useState(0)]: the current state; the setter
    is named by the instance. *)
Definition useState (self : nat) : M Z :=
  let! f := getFiber self in ret (f_val f).

(** [useEffect(effect, [key, val])] during render: the effect closure, which
    captures [key] and [val], waits for the commit. *)
Definition useEffect (self : nat) (key : string) (val : Z) : M unit :=
  modifyFiber self (set_pending (Some (key, val))).

(** The body of [useGS] (the render), returning the first component of the
    pair it returns; the second one is [setGS key]. *)
Definition useGS (self : nat) (key : string) (initialValue : value) : M value :=
  let! val := useState self in
  let! cur := GS_lookup key in
  run! when (not_entry cur) (registerGS key initialValue) in
  let! e := GS_entry key in
  run! (match value_of e with
        | VUndefined => GS_set_value key initialValue
        | _ => ret tt
        end) in
  run! useEffect self key val in
  let! e' := GS_entry key in
  ret (value_of e').

(** The function passed to [useEffect], closed over [key], [val], [setVal]. *)
Definition effect (self : nat) (key : string) (val : Z) : M (option Cleanup) :=
  let! f := getFiber self in
  if f_isFirstRender f then
    run! modifyFiber self (set_isFirstRender false) in
    let! e := GS_entry key in
    let! h := newArray val self in
    run! GS_assign key (mkEntry (value_of e) (Set_add h (listeners e))) in
    ret (Some (mkCleanup key val self))
  else ret None.

(** [() => { GS[key].listeners.delete([val, setVal]); }] *)
Definition runCleanup (c : Cleanup) : M unit :=
  let! e := GS_entry (c_key c) in
  let! h := newArray (c_val c) (c_setVal c) in
  GS_assign (c_key c) (mkEntry (value_of e) (Set_delete h (listeners e))).

Definition runCleanup_opt (c : option Cleanup) : M unit :=
  match c with
  | Some c => runCleanup c
  | None => ret tt
  end.

(** React: a new component instance and its first render. *)
Definition mount (key : string) (initialValue : value) : M (nat * value) :=
  λ w, let i := length (fibers w) in
       bind (useGS i key initialValue) (λ v, ret (i, v))
         (with_fibers (fibers w ++ [mkFiber 0 true None None None true]) w).

(** React: the effects of the latest render of [i] are flushed.  The effect
    runs when its dependencies differ from those of the last run, after the
    cleanup that run returned. *)
Definition commit (i : nat) : M unit :=
  let! f := getFiber i in
  match f_pending f with
  | None => ret tt
  | Some d =>
      if bool_decide (f_deps f = Some d)
      then modifyFiber i (set_pending None)
      else
        run! runCleanup_opt (f_cleanup f) in
        let! c := effect i d.1 d.2 in
        modifyFiber i (set_effect d c)
  end.

(** React: the instance is torn down; the cleanup of its last effect runs. *)
Definition unmount (i : nat) : M unit :=
  let! f := getFiber i in
  run! runCleanup_opt (f_cleanup f) in
  modifyFiber i set_unmounted.

(** What the application and React can do. *)
Inductive Op : Type :=
  | OpInitGS (initialState : gmap string value)
  | OpGetGS (key : string)
  | OpSetGS (key : string) (newValue : value)
  | OpMount (key : string) (initialValue : value)
  | OpRender (i : nat) (key : string) (initialValue : value)
  | OpCommit (i : nat)
  | OpUnmount (i : nat).

Definition is_mounted (i : nat) (w : World) : bool :=
  match fibers w !! i with
  | Some f => f_mounted f
  | None => false
  end.

(** Host actions on an instance that is not mounted do not happen. *)
Definition guarded (i : nat) (m : M unit) : M unit :=
  λ w, if is_mounted i w then m w else Some (tt, w).

Definition exec (op : Op) : M unit :=
  match op with
  | OpInitGS m => initGS m
  | OpGetGS key => run! getGS key in ret tt
  | OpSetGS key v => setGS key v
  | OpMount key v => run! mount key v in ret tt
  | OpRender i key v => guarded i (run! useGS i key v in ret tt)
  | OpCommit i => guarded i (commit i)
  | OpUnmount i => guarded i (unmount i)
  end.

Definition runOps (ops : list Op) : M unit := forEach ops exec.

(** The world after [m], when [m] does not throw. *)
Definition after {A} (m : M A) (w : World) : option World :=
  snd <$> m w.
Definition result {A} (m : M A) (w : World) : option A :=
  fst <$> m w.

(** Two writes to one key, then a read of it. *)
Definition write_write_read (key : string) (v1 v2 : value) : M value :=
  run! setGS key v1 in
  run! setGS key v2 in
  getGS key.

(** The handles whose setter was invoked, in order. *)
Definition notified (evs : list Event) : list Handle :=
  omap (λ ev, match ev with EvNotify h => Some h | EvStore _ _ => None end) evs.

(** The world right after [GS[key].value = v] for an existing entry [e]. *)
Definition stored (key : string) (v : value) (e : Entry) (w : World) : World :=
  mkWorld (<[key := mkEntry v (listeners e)]> (GS w)) (next_ref w) (fibers w)
          (log w ++ [EvStore key v]).


(** ** Object identity in the merge

    The registry above compares values by content.  To tell a new object
    from an old one, [makeNewValue] is also given on references: a
    reference is a primitive value, or an object with an identity and a
    content. *)
Inductive reference : Type :=
  | RPrim (v : value)
  | RObj (id : nat) (content : value).

Definition deref (r : reference) : value :=
  match r with
  | RPrim v => v
  | RObj _ v => v
  end.


(** utils.js, [makeNewValue], on references.  [next] is the first identity
    not in use; the object literal [{ ...val, ...newVal }] takes it.  The
    other branches return the reference [newVal] itself. *)
Definition makeNewValue_ref (next : nat) (val newVal : reference)
    : reference * nat :=
  if negb (truthy (deref val)) || negb (truthy (deref newVal))
  then (newVal, next)
  else if String.eqb (typeof (deref val)) "object"
          && negb (Array_isArray (deref val))
       then (RObj next (spread2 (deref val) (deref newVal)), S next)
       else (newVal, next).

(** A world with one mounted and subscribed instance: key [K] holds [1]. *)
Definition world_subscribed : World :=
  mkWorld {["K" := mkEntry (VNum 1) [mkHandle 0 0 0]]} 1
          [mkFiber 0 false (Some ("K", 0%Z)) None None true] [].

(** ** The subscription invariant *)

(** The keys a fiber's closures will look up have entries. *)
Definition fiber_ok (g : gmap string Entry) (f : Fiber) : Prop :=
  (∀ d, f_pending f = Some d → is_Some (g !! d.1)) ∧
  (∀ c, f_cleanup f = Some c → is_Some (g !! c_key c)).

Record Inv (w : World) : Prop := mkInv {
  (* every listener array was allocated *)
  inv_ref : ∀ K e h, GS w !! K = Some e → h ∈ listeners e →
            h_ref h < next_ref w;
  (* it belongs to an instance whose first effect has run *)
  inv_owner : ∀ K e h, GS w !! K = Some e → h ∈ listeners e →
              ∃ f, fibers w !! h_setVal h = Some f ∧ f_isFirstRender f = false;
  (* an instance has one listener array in the whole registry *)
  inv_unique : ∀ K1 e1 h1 K2 e2 h2,
               GS w !! K1 = Some e1 → h1 ∈ listeners e1 →
               GS w !! K2 = Some e2 → h2 ∈ listeners e2 →
               h_setVal h1 = h_setVal h2 → K1 = K2 ∧ h1 = h2;
  inv_nodup : ∀ K e, GS w !! K = Some e → NoDup (listeners e);
  inv_fibers : ∀ i f, fibers w !! i = Some f → fiber_ok (GS w) f
}.

(** Every entry of [w] is still there in [w'], with the same listener set. *)
Definition same_listeners (w w' : World) : Prop :=
  ∀ K e, GS w !! K = Some e →
         ∃ e', GS w' !! K = Some e' ∧ listeners e' = listeners e.

(** The listener arrays of instance [i] in a listener set. *)
Definition owned_by (i : nat) (hs : list Handle) : list Handle :=
  filter (λ h, h_setVal h = i) hs.

(** A re-render of instance [i] followed by the commit of its effects. *)
Definition rerender (i : nat) (key : string) (initialValue : value) : M value :=
  let! v := useGS i key initialValue in
  run! commit i in
  ret v.

(** The value a key holds.  For a write, a key without entry behaves like
    one that holds [undefined]. *)
Definition held (K : string) (w : World) : value :=
  match GS w !! K with
  | Some e => value_of e
  | None => VUndefined
  end.

(** A world where key [K] holds the record [{a: 1}]. *)
Definition world_record : World :=
  mkWorld {["K" := mkEntry (VObj {["a" := VNum 1]}) []]} 0 [] [].


(** Every listener set of [w] is still there in [w'], extended at its end
    if at all. *)
Definition listeners_grow (w w' : World) : Prop :=
  ∀ K e, GS w !! K = Some e →
         ∃ e', GS w' !! K = Some e' ∧ listeners e `prefix_of` listeners e'.

Definition is_initGS (op : Op) : bool :=
  match op with
  | OpInitGS _ => true
  | _ => false
  end.

(** ** The object [GS] and the names it inherits

    [GS] is made by [{}], so [GS[key]] finds, besides the entries (the own
    properties of [GS]), the properties of [Object.prototype]: its functions
    and the accessor [__proto__].  The registry above is exact for the other
    keys, the ordinary ones.  Below, the registry functions are given on the
    object as it is: the code can read and set the property [value] of a
    function of [Object.prototype]; an assignment to [GS["__proto__"]] or to
    [Object.prototype.value] changes what every later lookup inherits, which
    is not followed here ([Beyond]). *)

Definition Object_prototype_functions : list string :=
  ["constructor"; "hasOwnProperty"; "isPrototypeOf"; "propertyIsEnumerable";
   "toLocaleString"; "toString"; "valueOf"; "__defineGetter__";
   "__defineSetter__"; "__lookupGetter__"; "__lookupSetter__"].

Definition inherited (key : string) : bool :=
  bool_decide (key ∈ Object_prototype_functions).

Definition ordinary (key : string) : bool :=
  negb (inherited key) && negb (String.eqb key "__proto__").

(** The world, and the property [value] of the functions of
    [Object.prototype] where the code has set it. *)
Record Realm : Type := mkRealm {
  world : World;
  fn_value : gmap string value
}.

Definition realm0 : Realm := mkRealm world0 ∅.

Inductive Outcome (A : Type) : Type :=
  | Returns (a : A) (r : Realm)
  | Throws (r : Realm)            (* an uncaught [TypeError] *)
  | Beyond.                       (* the prototype chain of [GS] was written *)

Arguments Returns {A} a r.
Arguments Throws {A} r.
Arguments Beyond {A}.

Definition J (A : Type) : Type := Realm → Outcome A.

Definition jret {A} (a : A) : J A := λ r, Returns a r.
Definition jbind {A B} (m : J A) (k : A → J B) : J B :=
  λ r, match m r with
       | Returns a r' => k a r'
       | Throws r' => Throws r'
       | Beyond => Beyond
       end.
Definition TypeError {A} : J A := λ r, Throws r.
Definition beyond {A} : J A := λ _, Beyond.

(** An action of the registry above, run on the world of the realm. *)
Definition lift {A} (m : M A) : J A :=
  λ r, match m (world r) with
       | Some (a, w') => Returns a (mkRealm w' (fn_value r))
       | None => Throws r
       end.

Notation "'let#' x ':=' m 'in' k" := (jbind m (λ x, k))
  (at level 10, x name, m at level 100, k at level 200, only parsing).
Notation "'run#' m 'in' k" := (jbind m (λ _, k))
  (at level 10, m at level 100, k at level 200, only parsing).

Fixpoint jforEach {A} (xs : list A) (f : A → J unit) : J unit :=
  match xs with
  | [] => jret tt
  | x :: xs' => run# f x in jforEach xs' f
  end.

(** What [GS[key]] evaluates to. *)
Inductive Found : Type :=
  | FEntry (e : Entry)           (* an own property of [GS]: an entry *)
  | FFunction (name : string)    (* a function of [Object.prototype] *)
  | FObjectPrototype             (* [GS["__proto__"]] *)
  | FUndefined.

Definition GS_get (key : string) : J Found :=
  λ r, Returns
         (match GS (world r) !! key with
          | Some e => FEntry e
          | None =>
              if inherited key then FFunction key
              else if String.eqb key "__proto__" then FObjectPrototype
              else FUndefined
          end) r.

(** [!x]: entries, functions and [Object.prototype] are objects. *)
Definition not_found (x : Found) : bool :=
  match x with
  | FUndefined => true
  | _ => false
  end.

(** [x.value] *)
Definition get_value (x : Found) : J value :=
  λ r, match x with
       | FEntry e => Returns (value_of e) r
       | FFunction name => Returns (default VUndefined (fn_value r !! name)) r
       | FObjectPrototype => Returns VUndefined r
       | FUndefined => Throws r
       end.

(** [GS[key].value = v], where [GS[key]] is [x]. *)
Definition put_value (key : string) (x : Found) (v : value) : J unit :=
  match x with
  | FEntry _ => lift (GS_set_value key v)
  | FFunction name =>
      λ r, Returns tt (mkRealm (world r) (<[name := v]> (fn_value r)))
  | FObjectPrototype => beyond
  | FUndefined => TypeError
  end.

(** [x.listeners]; only an entry has the property. *)
Definition get_listeners (x : Found) : J (option (list Handle)) :=
  λ r, match x with
       | FEntry e => Returns (Some (listeners e)) r
       | FFunction _ | FObjectPrototype => Returns None r
       | FUndefined => Throws r
       end.

(** [GS[key] = { value, listeners: new Set() }].  For [__proto__] the
    assignment runs the setter of [Object.prototype], which replaces the
    prototype of [GS]; for any other key it makes an own property. *)
Definition registerGS_js (key : string) (v : value) : J unit :=
  if String.eqb key "__proto__" then beyond else lift (registerGS key v).

Definition initGS_js (initialState : gmap string value) : J unit :=
  jforEach (map_to_list initialState) (λ kv, registerGS_js kv.1 kv.2).

Definition getGS_js (key : string) : J value :=
  let# cur := GS_get key in
  if not_found cur then jret VNull
  else
    let# x := GS_get key in
    get_value x.

Definition setGS_js (key : string) (newValue : value) : J unit :=
  let# cur := GS_get key in
  if not_found cur then registerGS_js key newValue
  else
    let# x := GS_get key in
    let# old := get_value x in
    run# put_value key x (makeNewValue old newValue) in
    let# x' := GS_get key in
    let# ls := get_listeners x' in
    match ls with
    | Some hs => lift (forEach hs notify)
    | None => TypeError
    end.

(** ** The hook on the object [GS] *)

Definition useGS_js (self : nat) (key : string) (initialValue : value) : J value :=
  let# val := lift (useState self) in
  let# cur := GS_get key in
  run# (if not_found cur then registerGS_js key initialValue else jret tt) in
  let# x := GS_get key in
  let# v := get_value x in
  run# (match v with
        | VUndefined =>
            let# x' := GS_get key in
            put_value key x' initialValue
        | _ => jret tt
        end) in
  run# lift (useEffect self key val) in
  let# x'' := GS_get key in
  get_value x''.

(** [GS[key].listeners.add(...)] and [.delete(...)] throw unless [GS[key]]
    is an entry: nothing else has the property [listeners]. *)
Definition effect_js (self : nat) (key : string) (val : Z) : J (option Cleanup) :=
  let# f := lift (getFiber self) in
  if f_isFirstRender f then
    run# lift (modifyFiber self (set_isFirstRender false)) in
    let# x := GS_get key in
    match x with
    | FEntry e =>
        let# h := lift (newArray val self) in
        run# lift (GS_assign key (mkEntry (value_of e) (Set_add h (listeners e)))) in
        jret (Some (mkCleanup key val self))
    | FFunction _ | FObjectPrototype | FUndefined => TypeError
    end
  else jret None.

Definition runCleanup_js (c : Cleanup) : J unit :=
  let# x := GS_get (c_key c) in
  match x with
  | FEntry e =>
      let# h := lift (newArray (c_val c) (c_setVal c)) in
      lift (GS_assign (c_key c)
              (mkEntry (value_of e) (Set_delete h (listeners e))))
  | FFunction _ | FObjectPrototype | FUndefined => TypeError
  end.

Definition runCleanup_opt_js (c : option Cleanup) : J unit :=
  match c with
  | Some c => runCleanup_js c
  | None => jret tt
  end.

Definition mount_js (key : string) (initialValue : value) : J (nat * value) :=
  λ r, let i := length (fibers (world r)) in
       jbind (useGS_js i key initialValue) (λ v, jret (i, v))
         (mkRealm (with_fibers (fibers (world r)
                                ++ [mkFiber 0 true None None None true])
                               (world r))
                  (fn_value r)).

Definition commit_js (i : nat) : J unit :=
  let# f := lift (getFiber i) in
  match f_pending f with
  | None => jret tt
  | Some d =>
      if bool_decide (f_deps f = Some d)
      then lift (modifyFiber i (set_pending None))
      else
        run# runCleanup_opt_js (f_cleanup f) in
        let# c := effect_js i d.1 d.2 in
        lift (modifyFiber i (set_effect d c))
  end.

Definition unmount_js (i : nat) : J unit :=
  let# f := lift (getFiber i) in
  run# runCleanup_opt_js (f_cleanup f) in
  lift (modifyFiber i set_unmounted).

Definition guarded_js (i : nat) (m : J unit) : J unit :=
  λ r, if is_mounted i (world r) then m r else Returns tt r.

Definition exec_js (op : Op) : J unit :=
  match op with
  | OpInitGS m => initGS_js m
  | OpGetGS key => run# getGS_js key in jret tt
  | OpSetGS key v => setGS_js key v
  | OpMount key v => run# mount_js key v in jret tt
  | OpRender i key v => guarded_js i (run# useGS_js i key v in jret tt)
  | OpCommit i => guarded_js i (commit_js i)
  | OpUnmount i => guarded_js i (unmount_js i)
  end.

Definition runOps_js (ops : list Op) : J unit := jforEach ops exec_js.

(** The keys an operation passes to the registry are ordinary. *)
Definition op_ordinary (op : Op) : bool :=
  match op with
  | OpInitGS m => forallb (λ kv, ordinary kv.1) (map_to_list m)
  | OpGetGS key | OpSetGS key _ | OpMount key _ | OpRender _ key _ =>
      ordinary key
  | OpCommit _ | OpUnmount _ => true
  end.

(** * Properties *)

(** ** The merge policy *)

Lemma makeNewValue_falsy_old (old new : value) :
  truthy old = false → makeNewValue old new = new.
Proof. intros H. unfold makeNewValue. by rewrite H. Qed.

Lemma makeNewValue_falsy_new (old new : value) :
  truthy new = false → makeNewValue old new = new.
Proof. intros H. unfold makeNewValue. rewrite H. by rewrite orb_true_r. Qed.

Lemma makeNewValue_not_record (old new : value) :
  is_record old = false → makeNewValue old new = new.
Proof.
  intros H. unfold makeNewValue.
  destruct old; try done; simpl; repeat case_match; done.
Qed.

Lemma makeNewValue_record (m : gmap string value) (new : value) :
  truthy new = true →
  makeNewValue (VObj m) new = VObj (ownEnumerable new ∪ m).
Proof. intros H. unfold makeNewValue. simpl. by rewrite H. Qed.

(** ** Running the registry operations *)

Lemma bind_Some {A B} (m : M A) (k : A → M B) (w w1 : World) (a : A) :
  m w = Some (a, w1) → bind m k w = k a w1.
Proof. intros H. unfold bind. by rewrite H. Qed.

(** Run the first action of a sequence, given its outcome. *)
Tactic Notation "run_step" uconstr(H) := rewrite (bind_Some _ _ _ _ _ H).

Lemma GS_entry_Some (w : World) (K : string) (e : Entry) :
  GS w !! K = Some e → GS_entry K w = Some (e, w).
Proof. intros H. unfold GS_entry. by rewrite H. Qed.

Lemma getGS_None (w : World) (K : string) :
  GS w !! K = None → getGS K w = Some (VNull, w).
Proof. intros H. unfold getGS, bind, GS_lookup. by rewrite H. Qed.

Lemma getGS_Some (w : World) (K : string) (e : Entry) :
  GS w !! K = Some e → getGS K w = Some (value_of e, w).
Proof.
  intros H. unfold getGS, bind, GS_lookup, GS_entry. rewrite H. simpl.
  by rewrite H.
Qed.

Lemma notify_spec (h : Handle) (w : World) :
  ∃ w', notify h w = Some (tt, w') ∧ GS w' = GS w ∧
        next_ref w' = next_ref w ∧ log w' = log w ++ [EvNotify h] ∧
        length (fibers w') = length (fibers w).
Proof.
  unfold notify, bind, emit, setVal, modifyFiber. simpl.
  eexists; (split; [reflexivity|]); simpl; rewrite ?length_alter; done.
Qed.


Lemma forEach_notify (hs : list Handle) (w : World) :
  ∃ w', forEach hs notify w = Some (tt, w') ∧ GS w' = GS w ∧
        next_ref w' = next_ref w ∧ log w' = log w ++ (EvNotify <$> hs) ∧
        length (fibers w') = length (fibers w).
Proof.
  revert w. induction hs as [|h hs IH]; intros w; simpl.
  - exists w. by rewrite app_nil_r.
  - destruct (notify_spec h w) as (w1 & E1 & G1 & N1 & L1 & F1).
    destruct (IH w1) as (w2 & E2 & G2 & N2 & L2 & F2).
    exists w2. run_step E1.
    split; [done|]. rewrite G2, N2, L2, F2, L1, <- app_assoc. done.
Qed.

Lemma GS_set_value_Some (w : World) (K : string) (e : Entry) (v : value) :
  GS w !! K = Some e → GS_set_value K v w = Some (tt, stored K v e w).
Proof.
  intros H. unfold GS_set_value, bind, GS_entry, GS_assign, emit. by rewrite H.
Qed.

Lemma setGS_None (w : World) (K : string) (v : value) :
  GS w !! K = None →
  setGS K v w = Some (tt, with_GS (<[K := mkEntry v []]> (GS w)) w).
Proof. intros H. unfold setGS, bind, GS_lookup. by rewrite H. Qed.

Lemma setGS_Some (w : World) (K : string) (e : Entry) (v : value) :
  GS w !! K = Some e →
  setGS K v w =
  forEach (listeners e) notify (stored K (makeNewValue (value_of e) v) e w).
Proof.
  intros H. unfold setGS.
  assert (E1 : GS_lookup K w = Some (GS w !! K, w)) by done.
  run_step E1. rewrite H. cbn [not_entry].
  run_step (GS_entry_Some _ _ _ H).
  run_step (GS_set_value_Some w K e _ H).
  unfold bind, GS_entry. simpl. by rewrite lookup_insert_eq.
Qed.

(** A write always returns, and the value then held by the key is the
    written one for a new key, the merged one otherwise. *)
Lemma setGS_spec (w : World) (K : string) (v : value) :
  ∃ w', setGS K v w = Some (tt, w') ∧
        ∃ ls, GS w' !! K =
          Some (mkEntry (match GS w !! K with
                         | Some e => makeNewValue (value_of e) v
                         | None => v
                         end) ls).
Proof.
  destruct (GS w !! K) as [e|] eqn:H.
  - rewrite (setGS_Some _ _ _ _ H).
    destruct (forEach_notify (listeners e) (stored K (makeNewValue (value_of e) v) e w))
      as (w' & E & G & _).
    exists w'. split; [done|]. exists (listeners e). rewrite G. simpl.
    by rewrite lookup_insert_eq.
  - rewrite (setGS_None _ _ _ H). eexists. split; [done|]. exists []. simpl.
    by rewrite lookup_insert_eq.
Qed.

Lemma setGS_getGS (w : World) (K : string) (v : value) :
  result (run! setGS K v in getGS K) w =
  Some (match GS w !! K with
        | Some e => makeNewValue (value_of e) v
        | None => v
        end).
Proof.
  destruct (setGS_spec w K v) as (w' & E & ls & G).
  unfold result. rewrite (bind_Some _ _ _ _ _ E), (getGS_Some _ _ _ G). done.
Qed.

Lemma write_write_read_spec (w : World) (K : string) (v1 v2 : value) :
  result (write_write_read K v1 v2) w =
  Some (makeNewValue (match GS w !! K with
                      | Some e => makeNewValue (value_of e) v1
                      | None => v1
                      end) v2).
Proof.
  destruct (setGS_spec w K v1) as (w1 & E1 & ls1 & G1).
  unfold write_write_read, result. run_step E1.
  pose proof (setGS_getGS w1 K v2) as H. rewrite G1 in H. exact H.
Qed.

Lemma initGS_entries (l : list (string * value)) (w : World) :
  ∃ w', forEach l (λ kv, registerGS kv.1 kv.2) w = Some (tt, w') ∧
        next_ref w' = next_ref w ∧ fibers w' = fibers w ∧ log w' = log w ∧
        (∀ K, K ∉ l.*1 → GS w' !! K = GS w !! K) ∧
        (NoDup l.*1 → ∀ K V, (K, V) ∈ l → GS w' !! K = Some (mkEntry V [])).
Proof.
  revert w. induction l as [|[k v] l IH]; intros w; simpl.
  - exists w. repeat split; try done. intros _ K V H. by apply elem_of_nil in H.
  - set (w1 := with_GS (<[k := mkEntry v []]> (GS w)) w).
    destruct (IH w1) as (w' & E & N & F & L & Hout & Hin).
    exists w'. unfold bind, registerGS, GS_assign. simpl. fold w1.
    split; [done|]. repeat split; try done.
    + intros K HK. apply not_elem_of_cons in HK as [HK1 HK2].
      rewrite (Hout K HK2). simpl. by rewrite lookup_insert_ne.
    + intros Hnd K V HKV. apply NoDup_cons in Hnd as [Hk Hnd].
      apply elem_of_cons in HKV as [HKV|HKV].
      * injection HKV as -> ->. rewrite (Hout k Hk). simpl.
        by rewrite lookup_insert_eq.
      * by apply Hin.
Qed.

(** ** The claims about the registry *)





(** On every branch the reference-level merge has the content that
    [makeNewValue] gives. *)
Lemma makeNewValue_ref_content (next : nat) (val newVal : reference) :
  deref (makeNewValue_ref next val newVal).1
  = makeNewValue (deref val) (deref newVal).
Proof. unfold makeNewValue_ref, makeNewValue. by repeat case_match. Qed.





Lemma notified_notify (hs : list Handle) : notified (EvNotify <$> hs) = hs.
Proof.
  induction hs as [|h hs IH]; [done|].
  change (h :: notified (EvNotify <$> hs) = h :: hs). by rewrite IH.
Qed.

(** C6: after [initGS] of an object that has [K: V], the read of [K]
    returns [V] and the entry of [K] has an empty listener set, whatever
    entry and listeners [K] had before. *)
Theorem initGS_registers
    (w : World) (initialState : gmap string value) (K : string) (V : value) :
  initialState !! K = Some V →
  ∃ w', initGS initialState w = Some (tt, w') ∧
        GS w' !! K = Some (mkEntry V []) ∧
        getGS K w' = Some (V, w').
Proof.
  intros H. unfold initGS.
  destruct (initGS_entries (map_to_list initialState) w)
    as (w' & E & _ & _ & _ & _ & Hin).
  assert (G : GS w' !! K = Some (mkEntry V [])).
  { apply Hin; [apply NoDup_fst_map_to_list|by apply elem_of_map_to_list]. }
  exists w'. split; [done|]. split; [done|]. by rewrite (getGS_Some _ _ _ G).
Qed.

Lemma initGS_registers_witness :
  ∃ w', initGS {["K" := VStr "v"]} world_subscribed
        = Some (tt, w') ∧
        GS w' !! "K" = Some (mkEntry (VStr "v") []).
Proof.
  assert (H : ({["K" := VStr "v"]} : gmap string value) !! "K" = Some (VStr "v"))
    by (vm_compute; reflexivity).
  destruct (initGS_registers world_subscribed _ "K" (VStr "v") H)
    as (w' & E & G & _).
  exists w'. split; [exact E | exact G].
Defined.

(** ** The [Set] of listener arrays *)

Lemma Set_delete_fresh (h : Handle) (s : list Handle) :
  (∀ x, x ∈ s → h_ref x ≠ h_ref h) → Set_delete h s = s.
Proof.
  induction s as [|x s IH]; intros H; simpl; [done|].
  unfold same_ref. destruct (Nat.eqb_spec (h_ref x) (h_ref h)) as [E|_].
  - exfalso. apply (H x); [left|done].
  - f_equal. apply IH. intros y Hy. apply H. by right.
Qed.

Lemma Set_has_fresh (h : Handle) (s : list Handle) :
  (∀ x, x ∈ s → h_ref x ≠ h_ref h) → Set_has h s = false.
Proof.
  induction s as [|x s IH]; intros H; simpl; [done|].
  unfold same_ref at 1. destruct (Nat.eqb_spec (h_ref x) (h_ref h)) as [E|_].
  - exfalso. apply (H x); [left|done].
  - apply IH. intros y Hy. apply H. by right.
Qed.

Lemma Set_add_fresh (h : Handle) (s : list Handle) :
  (∀ x, x ∈ s → h_ref x ≠ h_ref h) → Set_add h s = s ++ [h].
Proof. intros H. unfold Set_add. by rewrite Set_has_fresh. Qed.

(** ** Preservation of the invariant *)

Lemma fiber_ok_mono (g g' : gmap string Entry) (f : Fiber) :
  (∀ K, is_Some (g !! K) → is_Some (g' !! K)) → fiber_ok g f → fiber_ok g' f.
Proof. intros Hd [H1 H2]. split; intros x Hx; apply Hd; eauto. Qed.

Lemma Inv_world0 : Inv world0.
Proof.
  split; simpl.
  - intros K e h H. by rewrite lookup_empty in H.
  - intros K e h H. by rewrite lookup_empty in H.
  - intros K1 e1 h1 K2 e2 h2 H. by rewrite lookup_empty in H.
  - intros K e H. by rewrite lookup_empty in H.
  - intros i f H. by rewrite lookup_nil in H.
Qed.

(** A step that adds no listener array keeps the invariant. *)
Lemma Inv_shrink (w w' : World) :
  Inv w →
  (∀ K e' h, GS w' !! K = Some e' → h ∈ listeners e' →
             ∃ e, GS w !! K = Some e ∧ h ∈ listeners e) →
  (∀ K e', GS w' !! K = Some e' → NoDup (listeners e')) →
  next_ref w ≤ next_ref w' →
  (∀ i f, fibers w !! i = Some f →
          ∃ f', fibers w' !! i = Some f' ∧
                (f_isFirstRender f = false → f_isFirstRender f' = false)) →
  (∀ i f, fibers w' !! i = Some f → fiber_ok (GS w') f) →
  Inv w'.
Proof.
  intros I Hback Hnd Hn Hf Hok. split; [| | |done|done].
  - intros K e' h HK Hh. destruct (Hback _ _ _ HK Hh) as (e & He & Hhe).
    pose proof (inv_ref _ I _ _ _ He Hhe). lia.
  - intros K e' h HK Hh. destruct (Hback _ _ _ HK Hh) as (e & He & Hhe).
    destruct (inv_owner _ I _ _ _ He Hhe) as (f & Hfi & Hfr).
    destruct (Hf _ _ Hfi) as (f' & Hf' & Hfr'). eauto.
  - intros K1 e1 h1 K2 e2 h2 HK1 Hh1 HK2 Hh2 Ho.
    destruct (Hback _ _ _ HK1 Hh1) as (e1' & He1 & Hhe1).
    destruct (Hback _ _ _ HK2 Hh2) as (e2' & He2 & Hhe2).
    exact (inv_unique _ I _ _ _ _ _ _ He1 Hhe1 He2 Hhe2 Ho).
Qed.

Lemma Inv_assign (w : World) (K : string) (e' : Entry) :
  Inv w →
  (∀ h, h ∈ listeners e' → ∃ e, GS w !! K = Some e ∧ h ∈ listeners e) →
  NoDup (listeners e') →
  Inv (with_GS (<[K := e']> (GS w)) w).
Proof.
  intros I Hsub Hnd. apply (Inv_shrink w); simpl; try done.
  - intros K0 e0 h H0 Hh. destruct (decide (K = K0)) as [<-|Hne].
    + rewrite lookup_insert_eq in H0. injection H0 as <-. by apply Hsub.
    + rewrite lookup_insert_ne in H0 by done. eauto.
  - intros K0 e0 H0. destruct (decide (K = K0)) as [<-|Hne].
    + rewrite lookup_insert_eq in H0. by injection H0 as <-.
    + rewrite lookup_insert_ne in H0 by done. by apply (inv_nodup _ I K0).
  - eauto.
  - intros i f Hi. apply (fiber_ok_mono (GS w)); [|by apply (inv_fibers _ I i)].
    intros K0 HK0. destruct (decide (K = K0)) as [<-|Hne].
    + by rewrite lookup_insert_eq.
    + by rewrite lookup_insert_ne.
Qed.

Lemma Inv_heap_log (w : World) (n : nat) (l : list Event) :
  Inv w → next_ref w ≤ n → Inv (mkWorld (GS w) n (fibers w) l).
Proof.
  intros I Hn. apply (Inv_shrink w); simpl; eauto.
  - by apply inv_nodup.
  - by apply inv_fibers.
Qed.

Lemma Inv_alter (w : World) (i : nat) (g : Fiber → Fiber) :
  Inv w →
  (∀ f, f_isFirstRender f = false → f_isFirstRender (g f) = false) →
  (∀ f, fibers w !! i = Some f → fiber_ok (GS w) (g f)) →
  Inv (with_fibers (alter g i (fibers w)) w).
Proof.
  intros I Hg Hok. apply (Inv_shrink w); simpl; eauto.
  - by apply inv_nodup.
  - intros j f Hj. destruct (decide (i = j)) as [<-|Hne].
    + exists (g f). split; [|by apply Hg].
      by rewrite list_lookup_alter_eq, Hj.
    + exists f. split; [|done]. by rewrite list_lookup_alter_ne.
  - intros j f Hj. destruct (decide (i = j)) as [<-|Hne].
    + rewrite list_lookup_alter_eq in Hj.
      destruct (fibers w !! i) as [f0|] eqn:E; [|done].
      injection Hj as <-. by apply Hok.
    + rewrite list_lookup_alter_ne in Hj by done. by apply (inv_fibers _ I j).
Qed.

Lemma Inv_mount (w : World) :
  Inv w → Inv (with_fibers (fibers w ++ [mkFiber 0 true None None None true]) w).
Proof.
  intros I. apply (Inv_shrink w); simpl; eauto.
  - by apply inv_nodup.
  - intros i f Hi. exists f. split; [|done]. by apply lookup_app_l_Some.
  - intros i f Hi. apply lookup_app_Some in Hi as [Hi|[_ Hi]].
    + by apply (inv_fibers _ I i).
    + apply list_lookup_singleton_Some in Hi as [_ <-]. by split.
Qed.

Lemma same_listeners_refl (w : World) : same_listeners w w.
Proof. intros K e H. eauto. Qed.

Lemma same_listeners_trans (w1 w2 w3 : World) :
  same_listeners w1 w2 → same_listeners w2 w3 → same_listeners w1 w3.
Proof.
  intros H12 H23 K e H. destruct (H12 _ _ H) as (e2 & H2 & L2).
  destruct (H23 _ _ H2) as (e3 & H3 & L3). exists e3. split; [done|congruence].
Qed.

Lemma same_listeners_assign (w : World) (K : string) (e' : Entry) :
  (∀ e, GS w !! K = Some e → listeners e' = listeners e) →
  same_listeners w (with_GS (<[K := e']> (GS w)) w).
Proof.
  intros H K0 e0 H0. simpl. destruct (decide (K = K0)) as [<-|Hne].
  - exists e'. rewrite lookup_insert_eq. split; [done|]. by apply H.
  - exists e0. by rewrite lookup_insert_ne.
Qed.

Lemma notify_Inv (h : Handle) (w : World) :
  Inv w → ∃ w', notify h w = Some (tt, w') ∧ Inv w' ∧ GS w' = GS w.
Proof.
  intros I. unfold notify, bind, emit, setVal, modifyFiber. simpl.
  eexists. split; [reflexivity|]. split; [|done].
  apply (Inv_alter (mkWorld _ _ _ _)); simpl.
  - by apply Inv_heap_log.
  - intros f Hf. by destruct (f_mounted f).
  - intros f Hf. destruct (inv_fibers _ I _ _ Hf) as [H1 H2].
    by destruct (f_mounted f).
Qed.

Lemma forEach_notify_Inv (hs : list Handle) (w : World) :
  Inv w → ∃ w', forEach hs notify w = Some (tt, w') ∧ Inv w' ∧ GS w' = GS w.
Proof.
  revert w. induction hs as [|h hs IH]; intros w I; simpl.
  - by exists w.
  - destruct (notify_Inv h w I) as (w1 & E1 & I1 & G1).
    destruct (IH w1 I1) as (w2 & E2 & I2 & G2).
    exists w2. run_step E1. split; [done|].
    split; [done|congruence].
Qed.

Lemma Inv_stored (w : World) (K : string) (e : Entry) (v : value) :
  Inv w → GS w !! K = Some e → Inv (stored K v e w).
Proof.
  intros I H. unfold stored.
  assert (I1 : Inv (with_GS (<[K := mkEntry v (listeners e)]> (GS w)) w)).
  { apply Inv_assign; simpl; eauto. by apply (inv_nodup _ I K). }
  exact (Inv_heap_log _ (next_ref w) (log w ++ [EvStore K v]) I1 (le_n _)).
Qed.

Lemma setGS_Inv (w : World) (K : string) (v : value) :
  Inv w → ∃ w', setGS K v w = Some (tt, w') ∧ Inv w'.
Proof.
  intros I. destruct (GS w !! K) as [e|] eqn:H.
  - rewrite (setGS_Some _ _ _ _ H).
    destruct (forEach_notify_Inv (listeners e)
                (stored K (makeNewValue (value_of e) v) e w))
      as (w' & E & I' & _); [by apply Inv_stored|]. eauto.
  - rewrite (setGS_None _ _ _ H). eexists. split; [done|].
    apply Inv_assign; simpl; [done| |constructor].
    intros h Hh. by apply elem_of_nil in Hh.
Qed.

Lemma initGS_Inv (l : list (string * value)) (w : World) :
  Inv w → ∃ w', forEach l (λ kv, registerGS kv.1 kv.2) w = Some (tt, w') ∧ Inv w'.
Proof.
  revert w. induction l as [|[k v] l IH]; intros w I; simpl.
  - by exists w.
  - unfold bind, registerGS, GS_assign. simpl. apply IH.
    apply Inv_assign; simpl; [done| |constructor].
    intros h Hh. by apply elem_of_nil in Hh.
Qed.

(** The cleanup deletes an array it has just built: it removes nothing. *)
Lemma runCleanup_spec (w : World) (c : Cleanup) :
  Inv w → is_Some (GS w !! c_key c) →
  runCleanup c w = Some (tt, mkWorld (GS w) (S (next_ref w)) (fibers w) (log w)).
Proof.
  intros I [e He]. unfold runCleanup, bind, GS_entry, newArray, GS_assign.
  rewrite He. simpl. rewrite Set_delete_fresh.
  - unfold with_GS. simpl. rewrite insert_id; [done|]. rewrite He. by destruct e.
  - intros x Hx. pose proof (inv_ref _ I _ _ _ He Hx). simpl. lia.
Qed.

Lemma runCleanup_opt_spec (w : World) (co : option Cleanup) :
  Inv w → (∀ c, co = Some c → is_Some (GS w !! c_key c)) →
  ∃ n, runCleanup_opt co w = Some (tt, mkWorld (GS w) n (fibers w) (log w)) ∧
       next_ref w ≤ n.
Proof.
  intros I H. destruct co as [c|]; simpl.
  - exists (S (next_ref w)). split; [|lia]. apply runCleanup_spec; eauto.
  - exists (next_ref w). split; [|lia]. unfold ret. by destruct w.
Qed.

Lemma effect_subscribed (w : World) (i : nat) (K : string) (val : Z) (f : Fiber) :
  fibers w !! i = Some f → f_isFirstRender f = false →
  effect i K val w = Some (None, w).
Proof. intros Hf Hr. unfold effect, bind, getFiber. rewrite Hf. simpl. by rewrite Hr. Qed.

(** The first effect of an instance adds one new array to the set of the
    key, and the invariant holds afterwards. *)
Lemma effect_first
    (w : World) (i : nat) (K : string) (val : Z) (f : Fiber) (e : Entry) :
  Inv w → fibers w !! i = Some f → f_isFirstRender f = true →
  GS w !! K = Some e →
  ∃ w', effect i K val w = Some (Some (mkCleanup K val i), w') ∧ Inv w' ∧
        GS w' = <[K := mkEntry (value_of e)
                          (listeners e ++ [mkHandle (next_ref w) val i])]> (GS w) ∧
        fibers w' = alter (set_isFirstRender false) i (fibers w).
Proof.
  intros I Hf Hr He. unfold effect, bind, getFiber. rewrite Hf. simpl. rewrite Hr.
  unfold modifyFiber, GS_entry, newArray, GS_assign. simpl. rewrite He. simpl.
  rewrite Set_add_fresh.
  2:{ intros x Hx. pose proof (inv_ref _ I _ _ _ He Hx). simpl. lia. }
  eexists. split; [reflexivity|]. split; [|done].
  set (hn := mkHandle (next_ref w) val i).
  assert (Hmem : ∀ K0 e0 h,
             <[K := mkEntry (value_of e) (listeners e ++ [hn])]> (GS w) !! K0
             = Some e0 →
             h ∈ listeners e0 →
             (K0 = K ∧ h = hn) ∨ ∃ e1, GS w !! K0 = Some e1 ∧ h ∈ listeners e1).
  { intros K0 e0 h H0 Hh. destruct (decide (K = K0)) as [<-|Hne].
    - rewrite lookup_insert_eq in H0. injection H0 as <-. simpl in Hh.
      apply elem_of_app in Hh as [Hh|Hh]; [right; eauto|].
      apply list_elem_of_singleton in Hh. by left.
    - rewrite lookup_insert_ne in H0 by done. right; eauto. }
  assert (Hnew : ∀ K0 e0 h, GS w !! K0 = Some e0 → h ∈ listeners e0 →
                            h_setVal h ≠ i).
  { intros K0 e0 h H0 Hh Ho.
    destruct (inv_owner _ I _ _ _ H0 Hh) as (f0 & Hf0 & Hr0).
    rewrite Ho, Hf in Hf0. injection Hf0 as <-. congruence. }
  split; simpl.
  - intros K0 e0 h H0 Hh. destruct (Hmem _ _ _ H0 Hh) as [[_ ->]|(e1 & H1 & Hh1)].
    + simpl. lia.
    + pose proof (inv_ref _ I _ _ _ H1 Hh1). lia.
  - intros K0 e0 h H0 Hh. destruct (Hmem _ _ _ H0 Hh) as [[_ ->]|(e1 & H1 & Hh1)].
    + simpl. exists (set_isFirstRender false f).
      by rewrite list_lookup_alter_eq, Hf.
    + destruct (inv_owner _ I _ _ _ H1 Hh1) as (f0 & Hf0 & Hr0).
      destruct (decide (i = h_setVal h)) as [Heq|Hne].
      * exists (set_isFirstRender false f0).
        by rewrite <- Heq, list_lookup_alter_eq, Heq, Hf0.
      * exists f0. by rewrite list_lookup_alter_ne.
  - intros K1 e1 h1 K2 e2 h2 H1 Hh1 H2 Hh2 Ho.
    destruct (Hmem _ _ _ H1 Hh1) as [[-> ->]|(e1' & H1' & Hh1')];
      destruct (Hmem _ _ _ H2 Hh2) as [[-> ->]|(e2' & H2' & Hh2')].
    + done.
    + exfalso. apply (Hnew _ _ _ H2' Hh2'). by rewrite <- Ho.
    + exfalso. apply (Hnew _ _ _ H1' Hh1'). by rewrite Ho.
    + exact (inv_unique _ I _ _ _ _ _ _ H1' Hh1' H2' Hh2' Ho).
  - intros K0 e0 H0. destruct (decide (K = K0)) as [<-|Hne].
    + rewrite lookup_insert_eq in H0. injection H0 as <-. simpl.
      apply NoDup_app. split; [by apply (inv_nodup _ I K)|]. split.
      * intros x Hx Hx'. apply list_elem_of_singleton in Hx' as ->.
        pose proof (inv_ref _ I _ _ _ He Hx). simpl in *. lia.
      * apply NoDup_singleton.
    + rewrite lookup_insert_ne in H0 by done. by apply (inv_nodup _ I K0).
  - intros j fj Hj.
    assert (Hd : ∀ K0, is_Some (GS w !! K0) →
                 is_Some (<[K := mkEntry (value_of e) (listeners e ++ [hn])]>
                            (GS w) !! K0)).
    { intros K0 HK0. destruct (decide (K = K0)) as [<-|Hne].
      - by rewrite lookup_insert_eq.
      - by rewrite lookup_insert_ne. }
    destruct (decide (i = j)) as [<-|Hne].
    + rewrite list_lookup_alter_eq, Hf in Hj. injection Hj as <-.
      apply (fiber_ok_mono (GS w)); [done|].
      destruct (inv_fibers _ I _ _ Hf) as [H1 H2]. by split.
    + rewrite list_lookup_alter_ne in Hj by done.
      apply (fiber_ok_mono (GS w)); [done|]. by apply (inv_fibers _ I j).
Qed.

Lemma ensure_entry_spec (w : World) (K : string) (init : value) :
  Inv w →
  ∃ w1 e1, when (not_entry (GS w !! K)) (registerGS K init) w
           = Some (tt, w1) ∧
           Inv w1 ∧ same_listeners w w1 ∧ fibers w1 = fibers w ∧
           next_ref w1 = next_ref w ∧ GS w1 !! K = Some e1.
Proof.
  intros I. destruct (GS w !! K) as [e|] eqn:H.
  - exists w, e. simpl.
    split_and!; try done. apply same_listeners_refl.
  - exists (with_GS (<[K := mkEntry init []]> (GS w)) w), (mkEntry init []).
    simpl. split_and!; try done.
    + apply Inv_assign; simpl; [done| |constructor].
      intros h Hh. by apply elem_of_nil in Hh.
    + apply same_listeners_assign. intros e He. congruence.
    + by rewrite lookup_insert_eq.
Qed.

Lemma init_undefined_spec (w : World) (K : string) (init : value) (e : Entry) :
  Inv w → GS w !! K = Some e →
  ∃ w2 e2, match value_of e with
           | VUndefined => GS_set_value K init
           | _ => ret tt
           end w = Some (tt, w2) ∧
           Inv w2 ∧ same_listeners w w2 ∧ fibers w2 = fibers w ∧
           next_ref w2 = next_ref w ∧ GS w2 !! K = Some e2.
Proof.
  intros I H.
  assert (Hs : ∃ w2 e2, GS_set_value K init w = Some (tt, w2) ∧
           Inv w2 ∧ same_listeners w w2 ∧ fibers w2 = fibers w ∧
           next_ref w2 = next_ref w ∧ GS w2 !! K = Some e2).
  { exists (stored K init e w), (mkEntry init (listeners e)).
    split_and!; try done.
    - by apply GS_set_value_Some.
    - by apply Inv_stored.
    - intros K0 e0 H0. simpl. destruct (decide (K = K0)) as [<-|Hne].
      + eexists. rewrite lookup_insert_eq. split; [done|]. simpl. congruence.
      + exists e0. by rewrite lookup_insert_ne.
    - simpl. by rewrite lookup_insert_eq. }
  assert (Hn : ∃ w2 e2, ret tt w = Some (tt, w2) ∧
           Inv w2 ∧ same_listeners w w2 ∧ fibers w2 = fibers w ∧
           next_ref w2 = next_ref w ∧ GS w2 !! K = Some e2).
  { exists w, e. split_and!; try done. apply same_listeners_refl. }
  by destruct (value_of e).
Qed.

(** A render never touches a listener set. *)
Lemma useGS_spec (w : World) (i : nat) (K : string) (init : value) (f : Fiber) :
  Inv w → fibers w !! i = Some f →
  ∃ v w', useGS i K init w = Some (v, w') ∧ Inv w' ∧ same_listeners w w' ∧
          fibers w' = alter (set_pending (Some (K, f_val f))) i (fibers w).
Proof.
  intros I Hf. unfold useGS.
  assert (E0 : useState i w = Some (f_val f, w)).
  { unfold useState, bind, getFiber. by rewrite Hf. }
  run_step E0.
  assert (E1 : GS_lookup K w = Some (GS w !! K, w)) by done.
  run_step E1.
  destruct (ensure_entry_spec w K init I) as (w1 & e1 & E2 & I1 & S1 & F1 & N1 & G1).
  run_step E2.
  run_step (GS_entry_Some _ _ _ G1).
  destruct (init_undefined_spec w1 K init e1 I1 G1)
    as (w2 & e2 & E3 & I2 & S2 & F2 & N2 & G2).
  run_step E3.
  set (w3 := with_fibers (alter (set_pending (Some (K, f_val f))) i (fibers w2)) w2).
  assert (E4 : useEffect i K (f_val f) w2 = Some (tt, w3)) by done.
  run_step E4.
  assert (G3 : GS w3 !! K = Some e2) by done.
  run_step (GS_entry_Some w3 K e2 G3).
  exists (value_of e2), w3. split_and!; try done.
  - apply Inv_alter; [done|done|].
    intros f0 Hf0. destruct (inv_fibers _ I2 _ _ Hf0) as [H1 H2].
    split; simpl; [|done]. intros d [= <-]. simpl. eauto.
  - apply (same_listeners_trans _ w1); [done|].
    apply (same_listeners_trans _ w2); [done|]. intros K0 e0 H0. by exists e0.
  - simpl. by rewrite F2, F1.
Qed.

Lemma getFiber_Some (w : World) (i : nat) (f : Fiber) :
  fibers w !! i = Some f → getFiber i w = Some (f, w).
Proof. intros H. unfold getFiber. by rewrite H. Qed.

(** Flushing the effects of an instance.  Once its first effect has run,
    no listener set changes. *)
Lemma commit_spec (w : World) (i : nat) (f : Fiber) :
  Inv w → fibers w !! i = Some f →
  ∃ w', commit i w = Some (tt, w') ∧ Inv w' ∧
        (f_isFirstRender f = false → same_listeners w w').
Proof.
  intros I Hf. unfold commit. run_step (getFiber_Some _ _ _ Hf).
  destruct (inv_fibers _ I _ _ Hf) as [Hp Hc].
  destruct (f_pending f) as [d|] eqn:Hd.
  - destruct (bool_decide (f_deps f = Some d)).
    + eexists. split; [reflexivity|]. split.
      * apply Inv_alter; [done|done|]. intros f0 Hf0.
        destruct (inv_fibers _ I _ _ Hf0) as [H1 H2]. by split.
      * intros _ K e H. by exists e.
    + destruct (runCleanup_opt_spec w (f_cleanup f) I Hc) as (n & Ec & Hn).
      run_step Ec.
      set (wa := mkWorld (GS w) n (fibers w) (log w)).
      assert (Ia : Inv wa) by by apply Inv_heap_log.
      destruct (f_isFirstRender f) eqn:Hr.
      * destruct (Hp d eq_refl) as [e He].
        destruct (effect_first wa i d.1 d.2 f e Ia Hf Hr He)
          as (wb & Ee & Ib & Gb & Fb).
        run_step Ee.
        eexists. split; [reflexivity|]. split; [|done].
        apply Inv_alter; [done|done|]. intros f0 Hf0. split; simpl; [done|].
        intros c [= <-]. simpl. rewrite Gb. by rewrite lookup_insert_eq.
      * run_step (effect_subscribed wa i d.1 d.2 f Hf Hr).
        eexists. split; [reflexivity|]. split.
        -- apply Inv_alter; [done|done|]. intros f0 Hf0. by split.
        -- intros _ K e H. by exists e.
  - exists w. split; [done|]. split; [done|]. intros _. apply same_listeners_refl.
Qed.

(** Tearing an instance down leaves the registry as it is. *)
Lemma unmount_spec (w : World) (i : nat) (f : Fiber) :
  Inv w → fibers w !! i = Some f →
  ∃ w', unmount i w = Some (tt, w') ∧ Inv w' ∧ GS w' = GS w ∧
        log w' = log w ∧ is_mounted i w' = false.
Proof.
  intros I Hf. unfold unmount.
  run_step (getFiber_Some _ _ _ Hf).
  destruct (inv_fibers _ I _ _ Hf) as [Hp Hc].
  destruct (runCleanup_opt_spec w (f_cleanup f) I Hc) as (n & Ec & Hn).
  run_step Ec.
  eexists. split; [reflexivity|]. split_and!; try done.
  - apply (Inv_alter (mkWorld _ _ _ _)); simpl;
      [by apply Inv_heap_log|done|]. intros f0 Hf0. by split.
  - unfold is_mounted. simpl. by rewrite list_lookup_alter_eq, Hf.
Qed.

Lemma mount_spec (w : World) (K : string) (init : value) :
  Inv w → ∃ r w', mount K init w = Some (r, w') ∧ Inv w'.
Proof.
  intros I. unfold mount.
  set (w0 := with_fibers (fibers w ++ [mkFiber 0 true None None None true]) w).
  assert (Hf : fibers w0 !! length (fibers w)
               = Some (mkFiber 0 true None None None true)).
  { simpl. by rewrite lookup_app_r, Nat.sub_diag. }
  destruct (useGS_spec w0 _ K init _ (Inv_mount w I) Hf) as (v & w' & E & I' & _).
  run_step E. by eexists _, _.
Qed.

Lemma getGS_total (w : World) (K : string) : ∃ v, getGS K w = Some (v, w).
Proof.
  destruct (GS w !! K) as [e|] eqn:H.
  - exists (value_of e). by apply getGS_Some.
  - exists VNull. by apply getGS_None.
Qed.

Lemma is_mounted_Some (w : World) (i : nat) :
  is_mounted i w = true → ∃ f, fibers w !! i = Some f.
Proof. unfold is_mounted. destruct (fibers w !! i); [eauto|done]. Qed.

Lemma exec_Inv (op : Op) (w : World) :
  Inv w → ∃ w', exec op w = Some (tt, w') ∧ Inv w'.
Proof.
  intros I. destruct op as [m|K|K v|K v|i K v|i|i]; simpl.
  - by apply initGS_Inv.
  - destruct (getGS_total w K) as (v & E). run_step E. eauto.
  - by apply setGS_Inv.
  - destruct (mount_spec w K v I) as (r & w' & E & I').
    run_step E. eauto.
  - unfold guarded. destruct (is_mounted i w) eqn:Hm; [|eauto].
    destruct (is_mounted_Some _ _ Hm) as [f Hf].
    destruct (useGS_spec w i K v f I Hf) as (r & w' & E & I' & _).
    run_step E. eauto.
  - unfold guarded. destruct (is_mounted i w) eqn:Hm; [|eauto].
    destruct (is_mounted_Some _ _ Hm) as [f Hf].
    destruct (commit_spec w i f I Hf) as (w' & E & I' & _). eauto.
  - unfold guarded. destruct (is_mounted i w) eqn:Hm; [|eauto].
    destruct (is_mounted_Some _ _ Hm) as [f Hf].
    destruct (unmount_spec w i f I Hf) as (w' & E & I' & _). eauto.
Qed.

(** No sequence of operations throws, and the invariant holds throughout. *)
Lemma runOps_Inv (ops : list Op) (w : World) :
  Inv w → ∃ w', runOps ops w = Some (tt, w') ∧ Inv w'.
Proof.
  revert w. induction ops as [|op ops IH]; intros w I; simpl.
  - by exists w.
  - destruct (exec_Inv op w I) as (w1 & E1 & I1).
    unfold runOps. simpl. run_step E1. by apply IH.
Qed.

Lemma rerender_spec (w : World) (i : nat) (K : string) (init : value) (f : Fiber) :
  Inv w → fibers w !! i = Some f → f_isFirstRender f = false →
  ∃ v w', rerender i K init w = Some (v, w') ∧ Inv w' ∧ same_listeners w w'.
Proof.
  intros I Hf Hr. unfold rerender.
  destruct (useGS_spec w i K init f I Hf) as (v & w1 & E1 & I1 & S1 & F1).
  run_step E1.
  assert (Hf1 : fibers w1 !! i = Some (set_pending (Some (K, f_val f)) f)).
  { by rewrite F1, list_lookup_alter_eq, Hf. }
  destruct (commit_spec w1 i _ I1 Hf1) as (w2 & E2 & I2 & S2).
  run_step E2. exists v, w2. split; [done|]. split; [done|].
  apply (same_listeners_trans _ w1); [done|]. by apply S2.
Qed.

Lemma owned_by_at_most_one (i : nat) (hs : list Handle) :
  NoDup hs →
  (∀ h1 h2, h1 ∈ hs → h2 ∈ hs → h_setVal h1 = h_setVal h2 → h1 = h2) →
  length (owned_by i hs) ≤ 1.
Proof.
  unfold owned_by. induction hs as [|h hs IH]; intros Hnd Hu; [simpl; lia|].
  apply NoDup_cons in Hnd as [Hh Hnd].
  assert (IH' : length (filter (λ h, h_setVal h = i) hs) ≤ 1).
  { apply IH; [done|]. intros h1 h2 H1 H2. apply Hu; by right. }
  rewrite filter_cons. destruct (decide (h_setVal h = i)) as [Ho|Ho]; [|done].
  destruct (filter (λ h, h_setVal h = i) hs) as [|x xs] eqn:Hfl; [simpl; lia|].
  exfalso. assert (Hx : x ∈ filter (λ h, h_setVal h = i) hs) by (rewrite Hfl; left).
  apply list_elem_of_filter in Hx as [Hxo Hx].
  apply Hh. rewrite (Hu h x); [done|left|by right|congruence].
Qed.

Lemma Inv_owned_by (w : World) (K : string) (e : Entry) (i : nat) :
  Inv w → GS w !! K = Some e → length (owned_by i (listeners e)) ≤ 1.
Proof.
  intros I H. apply owned_by_at_most_one; [by apply (inv_nodup _ I K)|].
  intros h1 h2 H1 H2 Ho.
  by destruct (inv_unique _ I _ _ _ _ _ _ H H1 H H2 Ho).
Qed.

Lemma setGS_notified (w : World) (K : string) (v : value) :
  ∃ w', setGS K v w = Some (tt, w') ∧
        notified (drop (length (log w)) (log w'))
        = match GS w !! K with Some e => listeners e | None => [] end.
Proof.
  destruct (GS w !! K) as [e|] eqn:H.
  - rewrite (setGS_Some _ _ _ _ H).
    destruct (forEach_notify (listeners e)
                (stored K (makeNewValue (value_of e) v) e w))
      as (w' & E & _ & _ & L & _).
    exists w'. split; [done|]. rewrite L. simpl.
    rewrite <- app_assoc, drop_app_length. simpl. apply notified_notify.
  - rewrite (setGS_None _ _ _ H). eexists. split; [done|]. simpl.
    by rewrite drop_all.
Qed.

(** ** The claims about the subscription lifecycle *)

(** C9: in every world the application and React can reach, an instance has
    at most one listener array in a listener set, and none under a second
    key; a re-render of a subscribed instance with its key, effects
    committed, leaves the listener set of the key as it is; and one write
    invokes the setter of an instance at most once. *)
Theorem subscribed_at_most_once (ops : list Op) :
  ∃ w, runOps ops world0 = Some (tt, w) ∧
    (∀ K e i, GS w !! K = Some e → length (owned_by i (listeners e)) ≤ 1) ∧
    (∀ K1 e1 h1 K2 e2 h2,
        GS w !! K1 = Some e1 → h1 ∈ listeners e1 →
        GS w !! K2 = Some e2 → h2 ∈ listeners e2 →
        h_setVal h1 = h_setVal h2 → K1 = K2 ∧ h1 = h2) ∧
    (∀ K e h init,
        GS w !! K = Some e → h ∈ listeners e →
        ∃ v w', rerender (h_setVal h) K init w = Some (v, w') ∧
                ∃ e', GS w' !! K = Some e' ∧ listeners e' = listeners e) ∧
    (∀ K v i,
        ∃ w', setGS K v w = Some (tt, w') ∧
              length (owned_by i (notified (drop (length (log w)) (log w')))) ≤ 1).
Proof.
  destruct (runOps_Inv ops world0 Inv_world0) as (w & E & I).
  exists w. split_and!; [done| | | |].
  - intros K e i H. by apply (Inv_owned_by w K).
  - apply (inv_unique _ I).
  - intros K e h init H Hh.
    destruct (inv_owner _ I _ _ _ H Hh) as (f & Hf & Hr).
    destruct (rerender_spec w _ K init f I Hf Hr) as (v & w' & Er & _ & S).
    exists v, w'. split; [done|]. by apply S.
  - intros K v i. destruct (setGS_notified w K v) as (w' & Es & N).
    exists w'. split; [done|]. rewrite N.
    destruct (GS w !! K) as [e|] eqn:H; [|simpl; lia].
    by apply (Inv_owned_by w K).
Qed.

(** In every reachable world, tearing down a subscribed instance removes
    nothing: its listener array stays in the set of its key, and the next
    write to the key still invokes its setter. *)
Lemma unmount_never_removes (ops : list Op) :
  ∃ w, runOps ops world0 = Some (tt, w) ∧
    ∀ K e h, GS w !! K = Some e → h ∈ listeners e →
      ∃ w1, unmount (h_setVal h) w = Some (tt, w1) ∧
            is_mounted (h_setVal h) w1 = false ∧ GS w1 = GS w ∧
            ∀ v, ∃ w2, setGS K v w1 = Some (tt, w2) ∧
                       h ∈ notified (drop (length (log w1)) (log w2)).
Proof.
  destruct (runOps_Inv ops world0 Inv_world0) as (w & E & I).
  exists w. split; [done|]. intros K e h H Hh.
  destruct (inv_owner _ I _ _ _ H Hh) as (f & Hf & _).
  destruct (unmount_spec w _ f I Hf) as (w1 & E1 & _ & G1 & _ & M1).
  exists w1. split_and!; try done. intros v.
  destruct (setGS_notified w1 K v) as (w2 & E2 & N). exists w2. split; [done|].
  by rewrite N, G1, H.
Qed.

(** C2 fails on the code.  An instance is mounted on key [K] and its effect
    committed, so its array [h] is in the listener set of [K]; the instance
    is unmounted, and [h] is still in the set; a write to [K] then invokes
    the setter held by [h]. *)
Theorem unmount_keeps_listener :
  ∃ w1 w2 w3,
    runOps [OpMount "K" (VNum 1); OpCommit 0] world0 = Some (tt, w1) ∧
    listeners <$> GS w1 !! "K" = Some [mkHandle 0 0 0] ∧
    unmount 0 w1 = Some (tt, w2) ∧
    is_mounted 0 w2 = false ∧
    listeners <$> GS w2 !! "K" = Some [mkHandle 0 0 0] ∧
    setGS "K" (VNum 2) w2 = Some (tt, w3) ∧
    notified (drop (length (log w2)) (log w3)) = [mkHandle 0 0 0].
Proof.
  do 3 eexists.
  repeat (split; [vm_compute; reflexivity|]). vm_compute; reflexivity.
Qed.

(** C3 fails on the code.  An instance is mounted on key [K1] and
    subscribed; it is then rendered with key [K2] and its effects
    committed.  Its array is still in the listener set of [K1], the set of
    [K2] is empty, a write to [K2] invokes no setter and a write to [K1]
    invokes the setter of the instance. *)
Theorem key_change_keeps_stale_listener :
  ∃ w1 w2 w3 w4,
    runOps [OpMount "K1" (VNum 1); OpCommit 0] world0 = Some (tt, w1) ∧
    listeners <$> GS w1 !! "K1" = Some [mkHandle 0 0 0] ∧
    runOps [OpRender 0 "K2" (VNum 2); OpCommit 0] w1 = Some (tt, w2) ∧
    is_mounted 0 w2 = true ∧
    listeners <$> GS w2 !! "K1" = Some [mkHandle 0 0 0] ∧
    listeners <$> GS w2 !! "K2" = Some [] ∧
    setGS "K2" (VNum 3) w2 = Some (tt, w3) ∧
    notified (drop (length (log w2)) (log w3)) = [] ∧
    setGS "K1" (VNum 4) w2 = Some (tt, w4) ∧
    notified (drop (length (log w2)) (log w4)) = [mkHandle 0 0 0].
Proof.
  do 4 eexists.
  repeat (split; [vm_compute; reflexivity|]). vm_compute; reflexivity.
Qed.


(** * Further properties of the code *)

(** ** The merge policy under repeated writes *)

Lemma is_record_VObj (v : value) :
  is_record v = true → ∃ m, v = VObj m.
Proof. destruct v; try done. eauto. Qed.

Lemma makeNewValue_same (v : value) : makeNewValue v v = v.
Proof.
  destruct (truthy v) eqn:Ht; [|by apply makeNewValue_falsy_new].
  destruct (is_record v) eqn:Hr; [|by apply makeNewValue_not_record].
  destruct (is_record_VObj v Hr) as [m ->].
  rewrite makeNewValue_record by done. simpl. f_equal. apply (idemp_L (∪)).
Qed.

Lemma makeNewValue_again (old v : value) :
  makeNewValue (makeNewValue old v) v = makeNewValue old v.
Proof.
  destruct (truthy v) eqn:Ht; [|by rewrite !makeNewValue_falsy_new].
  destruct (is_record old) eqn:Hr.
  - destruct (is_record_VObj old Hr) as [m ->].
    rewrite (makeNewValue_record m v Ht), makeNewValue_record by done.
    f_equal. by rewrite (assoc_L (∪)), (idemp_L (∪)).
  - rewrite (makeNewValue_not_record old v Hr). apply makeNewValue_same.
Qed.

Lemma makeNewValue_records_assoc (old : value) (m1 m2 : gmap string value) :
  makeNewValue (makeNewValue old (VObj m1)) (VObj m2)
  = makeNewValue old (VObj (m2 ∪ m1)).
Proof.
  destruct (is_record old) eqn:Hr.
  - destruct (is_record_VObj old Hr) as [m ->].
    rewrite (makeNewValue_record m (VObj m1)), !makeNewValue_record by done.
    simpl. f_equal. by rewrite (assoc_L (∪)).
  - rewrite !(makeNewValue_not_record old) by done. by rewrite makeNewValue_record.
Qed.

Lemma setGS_held (w : World) (K : string) (v : value) :
  ∃ w', setGS K v w = Some (tt, w') ∧ held K w' = makeNewValue (held K w) v.
Proof.
  destruct (setGS_spec w K v) as (w' & E & ls & G).
  exists w'. split; [done|]. unfold held. rewrite G. simpl.
  destruct (GS w !! K); [done|]. by rewrite makeNewValue_falsy_old.
Qed.

(** X1.  Writing the same value twice in a row leaves the key with the value
    that one write leaves. *)
Theorem setGS_twice_same (w : World) (K : string) (v : value) :
  result (write_write_read K v v) w = result (run! setGS K v in getGS K) w.
Proof.
  rewrite write_write_read_spec, setGS_getGS. f_equal.
  destruct (GS w !! K) as [e|]; [apply makeNewValue_again|apply makeNewValue_same].
Qed.

(** X2.  Writing a record and then a second record leaves the key with the
    value that one write of their shallow merge (the second over the first)
    leaves. *)
Theorem setGS_records_compose
    (w : World) (K : string) (m1 m2 : gmap string value) :
  result (write_write_read K (VObj m1) (VObj m2)) w
  = result (run! setGS K (VObj (m2 ∪ m1)) in getGS K) w.
Proof.
  rewrite write_write_read_spec, setGS_getGS. f_equal.
  destruct (GS w !! K) as [e|]; [apply makeNewValue_records_assoc|].
  by rewrite makeNewValue_record.
Qed.

(** X3.  Once a key holds a keyed record, writes of truthy values, whatever
    their shape, leave it holding a keyed record with at least the same
    keys: only a falsy write replaces a record. *)
Theorem record_keys_survive_truthy_writes
    (w : World) (K : string) (m : gmap string value) (vs : list value) :
  held K w = VObj m →
  Forall (λ v, truthy v = true) vs →
  ∃ w' r, forEach vs (setGS K) w = Some (tt, w') ∧
          held K w' = VObj r ∧ dom m ⊆ dom r.
Proof.
  intros H Hvs. revert w m H.
  induction Hvs as [|v vs Hv Hvs IH]; intros w m H; simpl.
  - by exists w, m.
  - destruct (setGS_held w K v) as (w1 & E1 & H1).
    rewrite H, makeNewValue_record in H1 by done.
    destruct (IH w1 _ H1) as (w' & r & E & Hr & Hd).
    exists w', r. run_step E1. split; [done|]. split; [done|].
    etrans; [|exact Hd]. rewrite dom_union_L. apply union_subseteq_r.
Qed.

Lemma record_keys_survive_truthy_writes_witness :
  ∃ w' r, forEach [VNum 5; VStr "x"; VArr [VNull]] (setGS "K") world_record
          = Some (tt, w') ∧
          held "K" w' = VObj r ∧ dom ({["a" := VNum 1]} : gmap string value) ⊆ dom r.
Proof.
  apply (record_keys_survive_truthy_writes world_record "K" {["a" := VNum 1]}).
  - vm_compute. reflexivity.
  - repeat constructor.
Defined.

(** ** What a write and an initialization leave alone *)

Lemma setGS_GS (w : World) (K : string) (v : value) :
  ∃ w' e', setGS K v w = Some (tt, w') ∧ GS w' = <[K := e']> (GS w) ∧
           listeners e' = match GS w !! K with
                          | Some e => listeners e
                          | None => []
                          end ∧
           next_ref w' = next_ref w ∧ length (fibers w') = length (fibers w).
Proof.
  destruct (GS w !! K) as [e|] eqn:H.
  - rewrite (setGS_Some _ _ _ _ H).
    destruct (forEach_notify (listeners e)
                (stored K (makeNewValue (value_of e) v) e w))
      as (w' & E & G & N & _ & F).
    exists w', (mkEntry (makeNewValue (value_of e) v) (listeners e)).
    by rewrite G, N, F.
  - rewrite (setGS_None _ _ _ H). by eexists _, (mkEntry v []).
Qed.

(** ** What a render does to the registry *)







(** ** What a write does to the subscribed instances *)

Lemma round53_exact (z : Z) :
  (- 2 ^ 53 ≤ z ≤ 2 ^ 53)%Z → round53 z = z.
Proof.
  intros Hz. unfold round53.
  destruct (Z.ltb_spec (Z.abs z) (2 ^ 53)) as [|Hge]; [done|].
  assert (Hc : z = (2 ^ 53)%Z ∨ z = (- 2 ^ 53)%Z) by lia.
  destruct Hc as [-> | ->]; vm_compute; reflexivity.
Qed.

Lemma Number_add_iter (n : nat) (v : Z) :
  (0 ≤ v)%Z → (v + Z.of_nat n ≤ 2 ^ 53)%Z →
  Nat.iter n (λ prev, Number_add prev 1) v = (v + Z.of_nat n)%Z.
Proof.
  intros Hv. induction n as [|n IH]; intros Hn; simpl; [lia|].
  rewrite IH by lia. unfold Number_add. rewrite round53_exact; lia.
Qed.

Lemma notify_fiber (h : Handle) (w : World) (i : nat) (f : Fiber) :
  fibers w !! i = Some f →
  ∃ w' f', notify h w = Some (tt, w') ∧ fibers w' !! i = Some f' ∧
    f_val f' = (if bool_decide (h_setVal h = i) && f_mounted f
                then Number_add (f_val f) 1 else f_val f) ∧
    f_mounted f' = f_mounted f.
Proof.
  intros Hf. unfold notify, bind, emit, setVal, modifyFiber. simpl.
  destruct (decide (h_setVal h = i)) as [->|Hne].
  - eexists _, _. split; [reflexivity|]. simpl.
    rewrite list_lookup_alter_eq, Hf. simpl. split; [reflexivity|].
    rewrite bool_decide_eq_true_2 by done.
    destruct (f_mounted f) eqn:Hm; simpl; by rewrite ?Hm.
  - eexists _, f. split; [reflexivity|]. simpl.
    rewrite list_lookup_alter_ne by done. split; [done|].
    by rewrite bool_decide_eq_false_2.
Qed.

Lemma forEach_notify_fiber (hs : list Handle) (w : World) (i : nat) (f : Fiber) :
  fibers w !! i = Some f →
  ∃ w' f', forEach hs notify w = Some (tt, w') ∧ fibers w' !! i = Some f' ∧
    f_val f' = (if f_mounted f
                then Nat.iter (length (owned_by i hs))
                              (λ prev, Number_add prev 1) (f_val f)
                else f_val f) ∧
    f_mounted f' = f_mounted f.
Proof.
  revert w f. induction hs as [|h hs IH]; intros w f Hf; simpl.
  - exists w, f. split_and!; try done. by destruct (f_mounted f).
  - destruct (notify_fiber h w i f Hf) as (w1 & f1 & E1 & Hf1 & V1 & M1).
    destruct (IH w1 f1 Hf1) as (w' & f' & E & Hf' & V & M).
    exists w', f'. run_step E1. split_and!; try done; [|congruence].
    rewrite V, M1, V1. unfold owned_by. rewrite filter_cons.
    destruct (f_mounted f); [|by rewrite andb_false_r].
    rewrite andb_true_r. destruct (decide (h_setVal h = i)) as [Heq|Hne].
    + rewrite bool_decide_eq_true_2 by done. simpl length.
      by rewrite Nat.iter_succ_r.
    + by rewrite bool_decide_eq_false_2.
Qed.

(** ** Subscribing, and then a write *)




(** ** Listener sets only grow *)

Lemma listeners_grow_refl (w : World) : listeners_grow w w.
Proof. intros K e H. by exists e. Qed.

Lemma listeners_grow_trans (w1 w2 w3 : World) :
  listeners_grow w1 w2 → listeners_grow w2 w3 → listeners_grow w1 w3.
Proof.
  intros H12 H23 K e H. destruct (H12 _ _ H) as (e2 & H2 & P2).
  destruct (H23 _ _ H2) as (e3 & H3 & P3). exists e3. split; [done|].
  by etrans.
Qed.

Lemma same_listeners_grow (w w' : World) :
  same_listeners w w' → listeners_grow w w'.
Proof.
  intros S K e H. destruct (S _ _ H) as (e' & H' & L). exists e'.
  split; [done|]. by rewrite L.
Qed.

Lemma GS_eq_grow (w w' : World) : GS w' = GS w → listeners_grow w w'.
Proof. intros G K e H. exists e. by rewrite G. Qed.

Lemma commit_grows (w : World) (i : nat) (f : Fiber) :
  Inv w → fibers w !! i = Some f →
  ∃ w', commit i w = Some (tt, w') ∧ Inv w' ∧ listeners_grow w w'.
Proof.
  intros I Hf. unfold commit. run_step (getFiber_Some _ _ _ Hf).
  destruct (inv_fibers _ I _ _ Hf) as [Hp Hc].
  destruct (f_pending f) as [d|] eqn:Hd.
  - destruct (bool_decide (f_deps f = Some d)).
    + eexists. split; [reflexivity|]. split; [|by apply GS_eq_grow].
      apply Inv_alter; [done|done|]. intros f0 Hf0.
      destruct (inv_fibers _ I _ _ Hf0) as [H1 H2]. by split.
    + destruct (runCleanup_opt_spec w (f_cleanup f) I Hc) as (n & Ec & Hn).
      run_step Ec.
      set (wa := mkWorld (GS w) n (fibers w) (log w)).
      assert (Ia : Inv wa) by by apply Inv_heap_log.
      destruct (f_isFirstRender f) eqn:Hr.
      * destruct (Hp d eq_refl) as [e He].
        destruct (effect_first wa i d.1 d.2 f e Ia Hf Hr He)
          as (wb & Ee & Ib & Gb & Fb).
        run_step Ee. eexists. split; [reflexivity|]. split.
        -- apply Inv_alter; [done|done|]. intros f0 Hf0. split; simpl; [done|].
           intros c [= <-]. simpl. rewrite Gb. by rewrite lookup_insert_eq.
        -- intros K0 e0 H0. simpl. rewrite Gb. simpl.
           destruct (decide (d.1 = K0)) as [<-|Hne].
           ++ eexists. rewrite lookup_insert_eq. split; [done|]. simpl.
              rewrite He in H0. injection H0 as <-. by apply prefix_app_r.
           ++ exists e0. by rewrite lookup_insert_ne.
      * run_step (effect_subscribed wa i d.1 d.2 f Hf Hr).
        eexists. split; [reflexivity|]. split; [|by apply GS_eq_grow].
        apply Inv_alter; [done|done|]. intros f0 Hf0. by split.
  - exists w. split; [done|]. split; [done|]. apply listeners_grow_refl.
Qed.

Lemma exec_grows (op : Op) (w : World) :
  is_initGS op = false → Inv w →
  ∃ w', exec op w = Some (tt, w') ∧ Inv w' ∧ listeners_grow w w'.
Proof.
  intros Hop I. destruct op as [m|K|K v|K v|i K v|i|i]; simpl; [done|..].
  - destruct (getGS_total w K) as (v & E). run_step E.
    exists w. split; [done|]. split; [done|]. apply listeners_grow_refl.
  - destruct (setGS_Inv w K v I) as (w' & E & I').
    destruct (setGS_GS w K v) as (w2 & e' & E2 & G & L & _).
    rewrite E in E2. injection E2 as <-.
    exists w'. split; [done|]. split; [done|].
    intros K0 e0 H0. rewrite G. destruct (decide (K = K0)) as [<-|Hne].
    + exists e'. rewrite lookup_insert_eq. split; [done|]. by rewrite L, H0.
    + exists e0. by rewrite lookup_insert_ne.
  - set (w0 := with_fibers (fibers w ++ [mkFiber 0 true None None None true]) w).
    assert (Hf : fibers w0 !! length (fibers w)
                 = Some (mkFiber 0 true None None None true)).
    { simpl. by rewrite lookup_app_r, Nat.sub_diag. }
    destruct (useGS_spec w0 _ K v _ (Inv_mount w I) Hf) as (x & w' & E & I' & S & _).
    assert (Em : mount K v w = Some ((length (fibers w), x), w')).
    { unfold mount. fold w0. cbv zeta. by run_step E. }
    run_step Em. exists w'. split; [done|]. split; [done|].
    apply (listeners_grow_trans _ w0); [by apply GS_eq_grow|].
    by apply same_listeners_grow.
  - unfold guarded. destruct (is_mounted i w) eqn:Hm.
    + destruct (is_mounted_Some _ _ Hm) as [f Hf].
      destruct (useGS_spec w i K v f I Hf) as (r & w' & E & I' & S & _).
      run_step E. exists w'. split; [done|]. split; [done|].
      by apply same_listeners_grow.
    + exists w. split; [done|]. split; [done|]. apply listeners_grow_refl.
  - unfold guarded. destruct (is_mounted i w) eqn:Hm.
    + destruct (is_mounted_Some _ _ Hm) as [f Hf]. by apply (commit_grows w i f).
    + exists w. split; [done|]. split; [done|]. apply listeners_grow_refl.
  - unfold guarded. destruct (is_mounted i w) eqn:Hm.
    + destruct (is_mounted_Some _ _ Hm) as [f Hf].
      destruct (unmount_spec w i f I Hf) as (w' & E & I' & G & _).
      exists w'. split; [done|]. split; [done|]. by apply GS_eq_grow.
    + exists w. split; [done|]. split; [done|]. apply listeners_grow_refl.
Qed.

Lemma runOps_grows (ops : list Op) (w : World) :
  forallb (λ op, negb (is_initGS op)) ops = true → Inv w →
  ∃ w', runOps ops w = Some (tt, w') ∧ Inv w' ∧ listeners_grow w w'.
Proof.
  revert w. induction ops as [|op ops IH]; intros w Hops I; simpl.
  - exists w. split; [done|]. split; [done|]. apply listeners_grow_refl.
  - simpl in Hops. apply andb_prop in Hops as [Hop Hops].
    apply negb_true_iff in Hop.
    destruct (exec_grows op w Hop I) as (w1 & E1 & I1 & G1).
    destruct (IH w1 Hops I1) as (w' & E & I' & G').
    exists w'. unfold runOps. simpl. run_step E1. split; [done|].
    split; [done|]. by apply (listeners_grow_trans _ w1).
Qed.

(** X11.  From any reachable state, operations other than [initGS] never
    take a listener out of a listener set: writes, reads, renders, effect
    commits and unmounts leave every entry in place with its listener set
    as it was, or extended at its end.  A listener array, once added, stays
    until [initGS] replaces the entry of its key. *)
Theorem listeners_never_removed (ops ops' : list Op) :
  forallb (λ op, negb (is_initGS op)) ops' = true →
  ∃ w w', runOps ops world0 = Some (tt, w) ∧
          runOps ops' w = Some (tt, w') ∧ listeners_grow w w'.
Proof.
  intros Hops. destruct (runOps_Inv ops world0 Inv_world0) as (w & E & I).
  destruct (runOps_grows ops' w Hops I) as (w' & E' & _ & G).
  by exists w, w'.
Qed.

Lemma listeners_never_removed_witness :
  ∃ w w', runOps [OpMount "K" (VNum 1); OpCommit 0] world0 = Some (tt, w) ∧
          runOps [OpSetGS "K" (VNum 2); OpRender 0 "K" (VNum 1); OpCommit 0;
                  OpUnmount 0; OpSetGS "K" (VNum 3)] w = Some (tt, w') ∧
          listeners_grow w w'.
Proof.
  apply (listeners_never_removed [OpMount "K" (VNum 1); OpCommit 0]).
  vm_compute. reflexivity.
Defined.


(** * The claims about the notification *)




(** C10: a write to an existing key calls the state setter of every
    listener of the key, whatever the merged value is: the calls are the
    listener set, in order, and every mounted instance has had its setter
    applied once for each of its listener arrays in the set; this is so in
    particular when the merged value equals the value held before, in which
    case the registry is left as it was. *)
Theorem setGS_notifies_unconditionally
    (w : World) (K : string) (e : Entry) (newValue : value) :
  GS w !! K = Some e →
  ∃ w', setGS K newValue w = Some (tt, w') ∧
    notified (drop (length (log w)) (log w')) = listeners e ∧
    (∀ i f, fibers w !! i = Some f → f_mounted f = true →
      ∃ f', fibers w' !! i = Some f' ∧
            f_val f' = Nat.iter (length (owned_by i (listeners e)))
                                (λ prev, Number_add prev 1) (f_val f)) ∧
    (makeNewValue (value_of e) newValue = value_of e → GS w' = GS w).
Proof.
  intros H. rewrite (setGS_Some _ _ _ _ H).
  destruct (forEach_notify (listeners e)
              (stored K (makeNewValue (value_of e) newValue) e w))
    as (w' & E & G & _ & L & _).
  exists w'. split_and!; try done.
  - rewrite L. simpl. rewrite <- app_assoc, drop_app_length. simpl.
    apply notified_notify.
  - intros i f Hf Hm.
    destruct (forEach_notify_fiber (listeners e)
                (stored K (makeNewValue (value_of e) newValue) e w) i f Hf)
      as (w2 & f' & E2 & Hf' & V & _).
    rewrite E in E2. injection E2 as <-. exists f'. split; [done|].
    by rewrite V, Hm.
  - intros Heq. rewrite G. simpl. rewrite Heq. apply insert_id.
    rewrite H. by destruct e.
Qed.

Lemma setGS_notifies_unconditionally_witness :
  ∃ w' f', setGS "K" (VNum 1) world_subscribed = Some (tt, w') ∧
           notified (log w') = [mkHandle 0 0 0] ∧
           fibers w' !! 0 = Some f' ∧ f_val f' = 1%Z ∧ GS w' = GS world_subscribed.
Proof.
  destruct (setGS_notifies_unconditionally world_subscribed
              "K" (mkEntry (VNum 1) [mkHandle 0 0 0]) (VNum 1)
              ltac:(vm_compute; reflexivity))
    as (w' & E & L & F & G).
  destruct (F 0 (mkFiber 0 false (Some ("K", 0%Z)) None None true)
              eq_refl eq_refl) as (f' & Hf' & V).
  exists w', f'. split; [exact E|]. split; [exact L|]. split; [exact Hf'|].
  split; [exact V|]. apply G. reflexivity.
Defined.

(** X9.  A write to an existing key applies [prev => prev + 1] to the dummy
    state [val] of every mounted instance once for each listener array of
    that instance in the set of the key; the addition is that of doubles,
    so it is exact as long as the result stays within [2 ^ 53].  The state
    of an unmounted instance stays, and no instance is mounted or unmounted
    by a write. *)
Theorem setGS_bumps_val
    (w : World) (K : string) (e : Entry) (v : value) (i : nat) (f : Fiber) :
  GS w !! K = Some e → fibers w !! i = Some f →
  ∃ w' f', setGS K v w = Some (tt, w') ∧ fibers w' !! i = Some f' ∧
    f_val f' = (if f_mounted f
                then Nat.iter (length (owned_by i (listeners e)))
                              (λ prev, Number_add prev 1) (f_val f)
                else f_val f) ∧
    (f_mounted f = true → (0 ≤ f_val f)%Z →
     (f_val f + Z.of_nat (length (owned_by i (listeners e))) ≤ 2 ^ 53)%Z →
     f_val f' = (f_val f + Z.of_nat (length (owned_by i (listeners e))))%Z) ∧
    f_mounted f' = f_mounted f.
Proof.
  intros H Hf. rewrite (setGS_Some _ _ _ _ H).
  destruct (forEach_notify_fiber (listeners e)
              (stored K (makeNewValue (value_of e) v) e w) i f Hf)
    as (w' & f' & E & Hf' & V & M).
  exists w', f'. split_and!; try done.
  intros Hm H0 Hle. rewrite V, Hm. by apply Number_add_iter.
Qed.

Lemma setGS_bumps_val_witness :
  ∃ w' f', setGS "K" (VNum 2) world_subscribed = Some (tt, w') ∧
           fibers w' !! 0 = Some f' ∧ f_val f' = 1%Z.
Proof.
  destruct (setGS_bumps_val world_subscribed "K"
              (mkEntry (VNum 1) [mkHandle 0 0 0]) (VNum 2) 0
              (mkFiber 0 false (Some ("K", 0%Z)) None None true)
              ltac:(vm_compute; reflexivity) eq_refl)
    as (w' & f' & E & Hf & V & _).
  exists w', f'. split; [exact E|]. split; [exact Hf | exact V].
Defined.

(** * The registry functions on the object [GS] with what it inherits *)

Lemma ordinary_spec (K : string) :
  ordinary K = true → inherited K = false ∧ String.eqb K "__proto__" = false.
Proof.
  unfold ordinary. intros H. apply andb_prop in H as [H1 H2].
  by apply negb_true_iff in H1, H2.
Qed.

Lemma GS_get_own (r : Realm) (K : string) (e : Entry) :
  GS (world r) !! K = Some e → GS_get K r = Returns (FEntry e) r.
Proof. intros H. unfold GS_get. by rewrite H. Qed.

Lemma GS_get_ordinary (r : Realm) (K : string) :
  ordinary K = true → GS (world r) !! K = None →
  GS_get K r = Returns FUndefined r.
Proof.
  intros Ho H. destruct (ordinary_spec K Ho) as [Hi Hp].
  unfold GS_get. by rewrite H, Hi, Hp.
Qed.

Lemma GS_get_inherited (r : Realm) (K : string) :
  inherited K = true → GS (world r) !! K = None →
  GS_get K r = Returns (FFunction K) r.
Proof. intros Hi H. unfold GS_get. by rewrite H, Hi. Qed.

Lemma lift_Some {A} (m : M A) (r : Realm) (a : A) (w' : World) :
  m (world r) = Some (a, w') → lift m r = Returns a (mkRealm w' (fn_value r)).
Proof. intros H. unfold lift. by rewrite H. Qed.

Lemma lift_mk {A} (m : M A) (w : World) (fn : gmap string value)
    (a : A) (w' : World) :
  m w = Some (a, w') → lift m (mkRealm w fn) = Returns a (mkRealm w' fn).
Proof. intros H. unfold lift. simpl. by rewrite H. Qed.

Lemma jbind_Returns {A B} (m : J A) (k : A → J B) (r r' : Realm) (a : A) :
  m r = Returns a r' → jbind m k r = k a r'.
Proof. intros H. unfold jbind. by rewrite H. Qed.

Tactic Notation "jrun_step" uconstr(H) := rewrite (jbind_Returns _ _ _ _ _ H).

(** On an ordinary key, and on any key that has an entry, the functions on
    the object are those of the registry. *)
Lemma getGS_js_agree (r : Realm) (K : string) :
  ordinary K = true ∨ is_Some (GS (world r) !! K) →
  getGS_js K r = lift (getGS K) r.
Proof.
  intros Hk. destruct r as [w fn]. unfold getGS_js.
  destruct (GS w !! K) as [e|] eqn:H.
  - jrun_step (GS_get_own (mkRealm w fn) K e H). cbn [not_found].
    jrun_step (GS_get_own (mkRealm w fn) K e H).
    by rewrite (lift_Some (getGS K) (mkRealm w fn) _ _ (getGS_Some w K e H)).
  - destruct Hk as [Ho|[e He]]; [|simpl in He; congruence].
    jrun_step (GS_get_ordinary (mkRealm w fn) K Ho H). cbn [not_found].
    by rewrite (lift_Some (getGS K) (mkRealm w fn) _ _ (getGS_None w K H)).
Qed.

Lemma setGS_js_agree (r : Realm) (K : string) (v : value) :
  ordinary K = true ∨ is_Some (GS (world r) !! K) →
  setGS_js K v r = lift (setGS K v) r.
Proof.
  intros Hk. destruct r as [w fn]. unfold setGS_js.
  destruct (GS w !! K) as [e|] eqn:H.
  - jrun_step (GS_get_own (mkRealm w fn) K e H). cbn [not_found].
    jrun_step (GS_get_own (mkRealm w fn) K e H).
    assert (Ev : get_value (FEntry e) (mkRealm w fn)
                 = Returns (value_of e) (mkRealm w fn)) by done.
    jrun_step Ev.
    set (merged := makeNewValue (value_of e) v).
    assert (Ep : put_value K (FEntry e) merged (mkRealm w fn)
                 = Returns tt (mkRealm (stored K merged e w) fn)).
    { unfold put_value.
      by rewrite (lift_Some (GS_set_value K merged) (mkRealm w fn) _ _
                    (GS_set_value_Some w K e merged H)). }
    jrun_step Ep.
    assert (H' : GS (world (mkRealm (stored K merged e w) fn)) !! K
                 = Some (mkEntry merged (listeners e))).
    { simpl. by rewrite lookup_insert_eq. }
    jrun_step (GS_get_own _ K _ H').
    assert (El : get_listeners (FEntry (mkEntry merged (listeners e)))
                   (mkRealm (stored K merged e w) fn)
                 = Returns (Some (listeners e)) (mkRealm (stored K merged e w) fn))
      by done.
    jrun_step El. unfold lift. cbn [world fn_value].
    rewrite (setGS_Some w K e v H). fold merged.
    destruct (forEach_notify (listeners e) (stored K merged e w)) as (w' & E & _).
    by rewrite E.
  - destruct Hk as [Ho|[e He]]; [|simpl in He; congruence].
    jrun_step (GS_get_ordinary (mkRealm w fn) K Ho H). cbn [not_found].
    destruct (ordinary_spec K Ho) as [_ Hp]. unfold registerGS_js. rewrite Hp.
    unfold lift. cbn [world fn_value]. by rewrite (setGS_None w K v H).
Qed.

Lemma initGS_js_entries (l : list (string * value)) (r : Realm) :
  Forall (λ kv, kv.1 ≠ "__proto__") l →
  jforEach l (λ kv, registerGS_js kv.1 kv.2) r
  = lift (forEach l (λ kv, registerGS kv.1 kv.2)) r.
Proof.
  intros Hl. revert r. induction Hl as [|[k v] l Hk Hl IH]; intros r; simpl.
  - by destruct r.
  - simpl in Hk. apply String.eqb_neq in Hk.
    unfold jbind, registerGS_js at 1. rewrite Hk.
    unfold lift at 1, registerGS at 1, GS_assign. simpl.
    rewrite IH. unfold lift, bind, registerGS at 2, GS_assign. simpl.
    destruct (initGS_entries l
                (with_GS (<[k := mkEntry v []]> (GS (world r))) (world r)))
      as (w' & E & _).
    by rewrite E.
Qed.

Lemma initGS_js_agree (r : Realm) (initialState : gmap string value) :
  initialState !! "__proto__" = None →
  initGS_js initialState r = lift (initGS initialState) r.
Proof.
  intros H. unfold initGS_js, initGS. apply initGS_js_entries.
  apply Forall_forall. intros [k v] Hkv Heq. simpl in Heq. subst k.
  apply elem_of_map_to_list in Hkv. congruence.
Qed.

(** C7 fails on the code.  On the new registry, which has no entry for
    [toString], [getGS("toString")] finds the function that [GS] inherits
    from [Object.prototype], takes it for an entry and returns its property
    [value], which is [undefined], not [null]. *)
Theorem getGS_inherited_name :
  GS (world realm0) !! "toString" = None ∧
  getGS_js "toString" realm0 = Returns VUndefined realm0.
Proof. split; vm_compute; reflexivity. Qed.

(** C8 fails on the code.  On the new registry, which has no entry for
    [constructor], [setGS("constructor", 1)] finds the function [Object],
    sets its property [value] to [1], and throws a [TypeError] on
    [GS[key].listeners.forEach]; no entry is created. *)
Theorem setGS_inherited_name_throws :
  GS (world realm0) !! "constructor" = None ∧
  setGS_js "constructor" (VNum 1) realm0
  = Throws (mkRealm world0 {["constructor" := VNum 1]}).
Proof. split; vm_compute; reflexivity. Qed.

(** For every name that [GS] inherits and that has no entry, the read
    returns the property [value] of the inherited function and never
    [null], and the write throws after setting that property. *)
Lemma inherited_name_is_taken_for_an_entry (r : Realm) (K : string) (v : value) :
  inherited K = true → GS (world r) !! K = None →
  getGS_js K r = Returns (default VUndefined (fn_value r !! K)) r ∧
  setGS_js K v r
  = Throws (mkRealm (world r)
              (<[K := makeNewValue (default VUndefined (fn_value r !! K)) v]>
                 (fn_value r))).
Proof.
  intros Hi H. split.
  - unfold getGS_js. jrun_step (GS_get_inherited r K Hi H). simpl.
    by jrun_step (GS_get_inherited r K Hi H).
  - unfold setGS_js. jrun_step (GS_get_inherited r K Hi H). simpl.
    jrun_step (GS_get_inherited r K Hi H).
    unfold jbind, get_value, put_value, GS_get. simpl. by rewrite H, Hi.
Qed.

(** X14.  For an ordinary key without entry (a key that is not a property
    name of [Object.prototype]), [getGS] returns [null] and changes
    nothing: no entry is created. *)
Theorem getGS_js_unregistered (r : Realm) (K : string) :
  ordinary K = true → GS (world r) !! K = None →
  getGS_js K r = Returns VNull r.
Proof.
  intros Ho H. rewrite getGS_js_agree by by left.
  rewrite (lift_Some _ _ _ _ (getGS_None _ _ H)). by destruct r.
Qed.

Lemma getGS_js_unregistered_witness : getGS_js "K" realm0 = Returns VNull realm0.
Proof.
  apply (getGS_js_unregistered realm0 "K"); vm_compute; reflexivity.
Defined.

(** X15.  For an ordinary key without entry, [setGS] does not throw: it
    creates the entry with the written value as it is (no merge) and an
    empty listener set, leaves the other entries alone and calls no
    listener. *)
Theorem setGS_js_unregistered (r : Realm) (K : string) (newValue : value) :
  ordinary K = true → GS (world r) !! K = None →
  ∃ r', setGS_js K newValue r = Returns tt r' ∧
        GS (world r') !! K = Some (mkEntry newValue []) ∧
        (∀ K', K' ≠ K → GS (world r') !! K' = GS (world r) !! K') ∧
        log (world r') = log (world r) ∧ fibers (world r') = fibers (world r) ∧
        fn_value r' = fn_value r.
Proof.
  intros Ho H. rewrite setGS_js_agree by by left.
  rewrite (lift_Some _ _ _ _ (setGS_None _ _ newValue H)).
  eexists. split; [done|]. simpl. split; [by rewrite lookup_insert_eq|].
  split; [|done]. intros K' HK. by rewrite lookup_insert_ne.
Qed.

Lemma setGS_js_unregistered_witness :
  ∃ r', setGS_js "K" (VObj {["a" := VNum 1]}) realm0 = Returns tt r' ∧
        GS (world r') !! "K" = Some (mkEntry (VObj {["a" := VNum 1]}) []) ∧
        log (world r') = [].
Proof.
  destruct (setGS_js_unregistered realm0 "K" (VObj {["a" := VNum 1]})
              ltac:(vm_compute; reflexivity) ltac:(vm_compute; reflexivity))
    as (r' & E & G & _ & L & _).
  exists r'. split; [exact E|]. split; [exact G | exact L].
Defined.

(** X4.  A write to a key that is ordinary or has an entry does not throw;
    it leaves the entry of every other key as it is, and leaves every
    listener set, that of the key included, as it is; it allocates no
    listener array, adds or removes no component instance, and leaves the
    functions of [Object.prototype] alone. *)
Theorem setGS_js_isolated (r : Realm) (K : string) (v : value) :
  ordinary K = true ∨ is_Some (GS (world r) !! K) →
  ∃ r', setGS_js K v r = Returns tt r' ∧
        (∀ K', K' ≠ K → GS (world r') !! K' = GS (world r) !! K') ∧
        same_listeners (world r) (world r') ∧
        next_ref (world r') = next_ref (world r) ∧
        length (fibers (world r')) = length (fibers (world r)) ∧
        fn_value r' = fn_value r.
Proof.
  intros Hk. rewrite setGS_js_agree by done.
  destruct (setGS_GS (world r) K v) as (w' & e' & E & G & L & N & F).
  rewrite (lift_Some _ _ _ _ E). eexists. split; [done|]. simpl.
  split_and!; try done.
  - intros K' HK. by rewrite G, lookup_insert_ne.
  - intros K0 e0 H0. rewrite G. destruct (decide (K = K0)) as [<-|Hne].
    + exists e'. rewrite lookup_insert_eq. split; [done|]. by rewrite L, H0.
    + exists e0. by rewrite lookup_insert_ne.
Qed.

Lemma setGS_js_isolated_witness :
  ∃ r', setGS_js "K" (VNum 2) (mkRealm world_subscribed ∅) = Returns tt r' ∧
        same_listeners world_subscribed (world r').
Proof.
  destruct (setGS_js_isolated (mkRealm world_subscribed ∅) "K" (VNum 2)
              ltac:(left; vm_compute; reflexivity))
    as (r' & E & _ & S & _).
  exists r'. split; [exact E | exact S].
Defined.

(** X5.  [initGS] of an object without an own key [__proto__] touches only
    the keys of its argument: the entry of any other key, with its value
    and listeners, stays (the registry is not reset); no listener is called,
    even for a key whose value is replaced, and nothing else changes.  With
    an empty argument the registry is unchanged. *)
Theorem initGS_js_isolated (r : Realm) (initialState : gmap string value) :
  initialState !! "__proto__" = None →
  ∃ r', initGS_js initialState r = Returns tt r' ∧
        (∀ K, initialState !! K = None →
              GS (world r') !! K = GS (world r) !! K) ∧
        log (world r') = log (world r) ∧
        fibers (world r') = fibers (world r) ∧
        next_ref (world r') = next_ref (world r) ∧
        fn_value r' = fn_value r.
Proof.
  intros Hp. rewrite initGS_js_agree by done. unfold initGS.
  destruct (initGS_entries (map_to_list initialState) (world r))
    as (w' & E & N & F & L & Hout & _).
  rewrite (lift_Some _ _ _ _ E). eexists. split; [done|]. simpl.
  split_and!; try done. intros K HK. apply Hout.
  intros Hin. apply list_elem_of_fmap in Hin as ([k x] & -> & Hx).
  apply elem_of_map_to_list in Hx. simpl in HK. congruence.
Qed.

Lemma initGS_js_isolated_witness :
  ∃ r', initGS_js {["K2" := VNum 5]} (mkRealm world_subscribed ∅) = Returns tt r' ∧
        GS (world r') !! "K" = GS world_subscribed !! "K".
Proof.
  assert (Hp : ({["K2" := VNum 5]} : gmap string value) !! "__proto__" = None)
    by (vm_compute; reflexivity).
  destruct (initGS_js_isolated (mkRealm world_subscribed ∅) _ Hp)
    as (r' & E & H & _).
  exists r'. split; [exact E|]. apply H. vm_compute. reflexivity.
Defined.

(** X12.  In every reachable state and for every listener array in a
    listener set, unmounting the owning instance does not throw and leaves
    the registry unchanged; and after any further operations other than
    [initGS], every write to that key still calls the setter held by that
    array. *)
Theorem unmounted_listener_still_notified (ops ops' : list Op) :
  forallb (λ op, negb (is_initGS op)) ops' = true →
  ∃ w, runOps ops world0 = Some (tt, w) ∧
    ∀ K e h, GS w !! K = Some e → h ∈ listeners e →
      ∃ w1 w2, unmount (h_setVal h) w = Some (tt, w1) ∧
               is_mounted (h_setVal h) w1 = false ∧ GS w1 = GS w ∧
               runOps ops' w1 = Some (tt, w2) ∧
               ∀ v, ∃ w3, setGS K v w2 = Some (tt, w3) ∧
                          h ∈ notified (drop (length (log w2)) (log w3)).
Proof.
  intros Hops. destruct (runOps_Inv ops world0 Inv_world0) as (w & E & I).
  exists w. split; [done|]. intros K e h H Hh.
  destruct (inv_owner _ I _ _ _ H Hh) as (f & Hf & _).
  destruct (unmount_spec w _ f I Hf) as (w1 & E1 & I1 & G1 & _ & M1).
  destruct (runOps_grows ops' w1 Hops I1) as (w2 & E2 & _ & Gr).
  exists w1, w2. split_and!; try done. intros v.
  assert (H1 : GS w1 !! K = Some e) by by rewrite G1.
  destruct (Gr K e H1) as (e2 & H2 & [k Hk]).
  destruct (setGS_notified w2 K v) as (w3 & E3 & N). exists w3. split; [done|].
  rewrite N, H2, Hk. apply elem_of_app. by left.
Qed.

Lemma unmounted_listener_still_notified_witness :
  ∃ w, runOps [OpMount "K" (VNum 1); OpCommit 0] world0 = Some (tt, w) ∧
    ∃ w1 w2, unmount 0 w = Some (tt, w1) ∧
             runOps [OpSetGS "K2" (VNum 2); OpMount "K" VNull; OpCommit 1] w1
             = Some (tt, w2) ∧
             ∃ w3, setGS "K" (VNum 3) w2 = Some (tt, w3) ∧
                   mkHandle 0 0 0 ∈ notified (drop (length (log w2)) (log w3)).
Proof.
  destruct (unmounted_listener_still_notified
              [OpMount "K" (VNum 1); OpCommit 0]
              [OpSetGS "K2" (VNum 2); OpMount "K" VNull; OpCommit 1]
              ltac:(vm_compute; reflexivity))
    as (w & E & H).
  exists w. split; [exact E|].
  assert (Hw : ∃ e, GS w !! "K" = Some e ∧ mkHandle 0 0 0 ∈ listeners e).
  { vm_compute in E. injection E as <-. eexists. split; [vm_compute; reflexivity|].
    left. }
  destruct Hw as (e & He & Hh).
  destruct (H "K" e (mkHandle 0 0 0) He Hh) as (w1 & w2 & E1 & _ & _ & E2 & Hs).
  destruct (Hs (VNum 3)) as (w3 & E3 & Hn).
  exists w1, w2. split; [exact E1|]. split; [exact E2|].
  exists w3. split; [exact E3 | exact Hn].
Defined.

(** ** The hook on ordinary keys *)

Lemma ensure_js (w : World) (fn : gmap string value) (K : string) (init : value) :
  ordinary K = true ∨ is_Some (GS w !! K) →
  ∃ w1 e1,
    when (not_entry (GS w !! K)) (registerGS K init) w = Some (tt, w1) ∧
    GS w1 !! K = Some e1 ∧
    ∀ B (k : unit → J B),
      jbind (GS_get K)
        (λ cur, jbind (if not_found cur then registerGS_js K init else jret tt) k)
        (mkRealm w fn)
      = k tt (mkRealm w1 fn).
Proof.
  intros Hk. destruct (GS w !! K) as [e|] eqn:H.
  - exists w, e. split_and!; try done. intros B k.
    by jrun_step (GS_get_own (mkRealm w fn) K e H).
  - destruct Hk as [Ho|[e He]]; [|congruence].
    exists (with_GS (<[K := mkEntry init []]> (GS w)) w), (mkEntry init []).
    split_and!; try done.
    + simpl. by rewrite lookup_insert_eq.
    + intros B k. jrun_step (GS_get_ordinary (mkRealm w fn) K Ho H).
      cbn [not_found]. destruct (ordinary_spec K Ho) as [_ Hp].
      unfold registerGS_js. by rewrite Hp.
Qed.

Lemma init_js (w : World) (fn : gmap string value) (K : string) (init : value)
    (e : Entry) :
  GS w !! K = Some e →
  ∃ w2 e2,
    match value_of e with
    | VUndefined => GS_set_value K init
    | _ => ret tt
    end w = Some (tt, w2) ∧
    GS w2 !! K = Some e2 ∧
    ∀ B (k : unit → J B),
      jbind (match value_of e with
             | VUndefined => jbind (GS_get K) (λ x', put_value K x' init)
             | _ => jret tt
             end) k (mkRealm w fn)
      = k tt (mkRealm w2 fn).
Proof.
  intros H. destruct (value_of e) eqn:Hv;
    try (exists w, e; split_and!; done).
  exists (stored K init e w), (mkEntry init (listeners e)). split_and!.
  - by apply GS_set_value_Some.
  - simpl. by rewrite lookup_insert_eq.
  - intros B k. unfold jbind at 1.
    jrun_step (GS_get_own (mkRealm w fn) K e H). unfold put_value.
    by rewrite (lift_Some (GS_set_value K init) (mkRealm w fn) _ _
                  (GS_set_value_Some w K e init H)).
Qed.

Lemma useGS_js_agree
    (r : Realm) (i : nat) (K : string) (init : value) (f : Fiber) :
  ordinary K = true ∨ is_Some (GS (world r) !! K) →
  fibers (world r) !! i = Some f →
  ∃ v w', useGS i K init (world r) = Some (v, w') ∧
          useGS_js i K init r = Returns v (mkRealm w' (fn_value r)).
Proof.
  destruct r as [w fn]. cbn [world fn_value]. intros Hk Hf.
  unfold useGS, useGS_js.
  assert (E0 : useState i w = Some (f_val f, w)).
  { unfold useState, bind, getFiber. by rewrite Hf. }
  run_step E0. jrun_step (lift_Some (useState i) (mkRealm w fn) _ _ E0).
  assert (E1 : GS_lookup K w = Some (GS w !! K, w)) by done.
  run_step E1.
  destruct (ensure_js w fn K init Hk) as (w1 & e1 & E2 & H1 & J2).
  run_step E2. rewrite J2.
  run_step (GS_entry_Some _ _ _ H1).
  jrun_step (GS_get_own (mkRealm w1 fn) K e1 H1).
  assert (Ev : get_value (FEntry e1) (mkRealm w1 fn)
               = Returns (value_of e1) (mkRealm w1 fn)) by done.
  jrun_step Ev.
  destruct (init_js w1 fn K init e1 H1) as (w2 & e2 & E3 & H2 & J3).
  run_step E3. rewrite J3.
  set (w3 := with_fibers (alter (set_pending (Some (K, f_val f))) i (fibers w2)) w2).
  assert (E4 : useEffect i K (f_val f) w2 = Some (tt, w3)) by done.
  run_step E4.
  jrun_step (lift_Some (useEffect i K (f_val f)) (mkRealm w2 fn) _ _ E4).
  assert (H3 : GS w3 !! K = Some e2) by done.
  run_step (GS_entry_Some w3 K e2 H3).
  jrun_step (GS_get_own (mkRealm w3 fn) K e2 H3).
  by exists (value_of e2), w3.
Qed.

Lemma effect_js_agree
    (r : Realm) (i : nat) (K : string) (val : Z) (c : option Cleanup) (w' : World) :
  is_Some (GS (world r) !! K) →
  effect i K val (world r) = Some (c, w') →
  effect_js i K val r = Returns c (mkRealm w' (fn_value r)).
Proof.
  destruct r as [w fn]. cbn [world fn_value]. intros [e He] E.
  unfold effect in E. unfold effect_js.
  destruct (fibers w !! i) as [f|] eqn:Hf.
  - rewrite (bind_Some _ _ _ _ _ (getFiber_Some _ _ _ Hf)) in E.
    jrun_step (lift_Some (getFiber i) (mkRealm w fn) _ _ (getFiber_Some _ _ _ Hf)).
    destruct (f_isFirstRender f).
    + unfold bind, jbind, lift, modifyFiber, GS_get, GS_entry, newArray,
        GS_assign, jret, ret in *. simpl in *. rewrite He in *. simpl in *.
      by injection E as <- <-.
    + unfold ret in E. by injection E as <- <-.
  - unfold bind, getFiber in E. by rewrite Hf in E.
Qed.

Lemma runCleanup_opt_js_agree (r : Realm) (co : option Cleanup) (w' : World) :
  (∀ c, co = Some c → is_Some (GS (world r) !! c_key c)) →
  runCleanup_opt co (world r) = Some (tt, w') →
  runCleanup_opt_js co r = Returns tt (mkRealm w' (fn_value r)).
Proof.
  destruct r as [w fn]. cbn [world fn_value]. intros Hc E.
  destruct co as [c|]; simpl in *.
  - destruct (Hc c eq_refl) as [e He].
    unfold runCleanup, runCleanup_js, bind, jbind, lift, GS_get, GS_entry,
      newArray, GS_assign in *. simpl in *. rewrite He in *. simpl in *.
    by injection E as <-.
  - unfold ret in E. by injection E as <-.
Qed.

Lemma commit_js_agree (r : Realm) (i : nat) (f : Fiber) (w' : World) :
  Inv (world r) → fibers (world r) !! i = Some f →
  commit i (world r) = Some (tt, w') →
  commit_js i r = Returns tt (mkRealm w' (fn_value r)).
Proof.
  destruct r as [w fn]. cbn [world fn_value]. intros I Hf E.
  unfold commit in E. unfold commit_js.
  rewrite (bind_Some _ _ _ _ _ (getFiber_Some _ _ _ Hf)) in E.
  jrun_step (lift_mk (getFiber i) w fn _ _ (getFiber_Some _ _ _ Hf)).
  destruct (inv_fibers _ I _ _ Hf) as [Hp Hc].
  destruct (f_pending f) as [d|] eqn:Hd.
  - destruct (bool_decide (f_deps f = Some d)).
    + cbn [world fn_value]. by rewrite (lift_mk _ w fn _ _ E).
    + destruct (runCleanup_opt_spec w (f_cleanup f) I Hc) as (n & Ec & Hn).
      rewrite (bind_Some _ _ _ _ _ Ec) in E.
      jrun_step (runCleanup_opt_js_agree (mkRealm w fn) (f_cleanup f) _ Hc Ec).
      set (wa := mkWorld (GS w) n (fibers w) (log w)) in *.
      destruct (effect i d.1 d.2 wa) as [[c wb]|] eqn:Ee;
        [|by unfold bind in E; rewrite Ee in E].
      rewrite (bind_Some _ _ _ _ _ Ee) in E.
      jrun_step (effect_js_agree (mkRealm wa fn) i d.1 d.2 c wb (Hp d eq_refl) Ee).
      cbn [world fn_value]. by rewrite (lift_mk _ wb fn _ _ E).
  - unfold ret in E. by injection E as <-.
Qed.

Lemma unmount_js_agree (r : Realm) (i : nat) (f : Fiber) (w' : World) :
  Inv (world r) → fibers (world r) !! i = Some f →
  unmount i (world r) = Some (tt, w') →
  unmount_js i r = Returns tt (mkRealm w' (fn_value r)).
Proof.
  destruct r as [w fn]. cbn [world fn_value]. intros I Hf E.
  unfold unmount in E. unfold unmount_js.
  rewrite (bind_Some _ _ _ _ _ (getFiber_Some _ _ _ Hf)) in E.
  jrun_step (lift_mk (getFiber i) w fn _ _ (getFiber_Some _ _ _ Hf)).
  destruct (inv_fibers _ I _ _ Hf) as [Hp Hc].
  destruct (runCleanup_opt_spec w (f_cleanup f) I Hc) as (n & Ec & Hn).
  rewrite (bind_Some _ _ _ _ _ Ec) in E.
  jrun_step (runCleanup_opt_js_agree (mkRealm w fn) (f_cleanup f) _ Hc Ec).
  cbn [world fn_value]. cbn [world fn_value]. by rewrite (lift_mk _ _ fn _ _ E).
Qed.

Lemma mount_js_agree (r : Realm) (K : string) (init : value) :
  ordinary K = true →
  ∃ x w', mount K init (world r) = Some (x, w') ∧
          mount_js K init r = Returns x (mkRealm w' (fn_value r)).
Proof.
  destruct r as [w fn]. cbn [world fn_value]. intros Ho.
  set (w0 := with_fibers (fibers w ++ [mkFiber 0 true None None None true]) w).
  assert (Hf : fibers (world (mkRealm w0 fn)) !! length (fibers w)
               = Some (mkFiber 0 true None None None true)).
  { simpl. by rewrite lookup_app_r, Nat.sub_diag. }
  destruct (useGS_js_agree (mkRealm w0 fn) _ K init _ (or_introl Ho) Hf)
    as (v & w' & E & Ej).
  exists (length (fibers w), v), w'. split.
  - unfold mount. fold w0. cbv zeta. by run_step E.
  - unfold mount_js. cbn [world fn_value]. fold w0. cbv zeta. by jrun_step Ej.
Qed.

Lemma op_ordinary_initGS (m : gmap string value) :
  op_ordinary (OpInitGS m) = true → m !! "__proto__" = None.
Proof.
  simpl. intros H. destruct (m !! "__proto__") as [v|] eqn:Hm; [|done].
  apply elem_of_map_to_list in Hm.
  rewrite forallb_forall in H. apply list_elem_of_In in Hm.
  by apply H in Hm.
Qed.

Lemma exec_js_agree (op : Op) (r : Realm) :
  Inv (world r) → op_ordinary op = true →
  ∃ w', exec op (world r) = Some (tt, w') ∧ Inv w' ∧
        exec_js op r = Returns tt (mkRealm w' (fn_value r)).
Proof.
  intros I Ho. destruct (exec_Inv op (world r) I) as (w' & E & I').
  exists w'. split; [done|]. split; [done|].
  destruct op as [m|K|K v|K v|i K v|i|i]; simpl in *.
  - rewrite (initGS_js_agree r m (op_ordinary_initGS m Ho)).
    by rewrite (lift_Some _ _ _ _ E).
  - destruct (getGS_total (world r) K) as (v & Eg).
    rewrite (bind_Some _ _ _ _ _ Eg) in E. unfold ret in E. injection E as <-.
    unfold jbind. rewrite (getGS_js_agree r K) by by left.
    rewrite (lift_Some _ _ _ _ Eg). by destruct r.
  - rewrite (setGS_js_agree r K v) by by left. by rewrite (lift_Some _ _ _ _ E).
  - destruct (mount_js_agree r K v Ho) as (x & w2 & Em & Ej).
    rewrite (bind_Some _ _ _ _ _ Em) in E. unfold ret in E. injection E as <-.
    by jrun_step Ej.
  - unfold guarded in E. unfold guarded_js.
    destruct (is_mounted i (world r)) eqn:Hm.
    + destruct (is_mounted_Some _ _ Hm) as [f Hf].
      destruct (useGS_js_agree r i K v f (or_introl Ho) Hf) as (x & w2 & Eu & Ej).
      rewrite (bind_Some _ _ _ _ _ Eu) in E. unfold ret in E. injection E as <-.
      by jrun_step Ej.
    + injection E as <-. by destruct r.
  - unfold guarded in E. unfold guarded_js.
    destruct (is_mounted i (world r)) eqn:Hm.
    + destruct (is_mounted_Some _ _ Hm) as [f Hf].
      by apply (commit_js_agree r i f).
    + injection E as <-. by destruct r.
  - unfold guarded in E. unfold guarded_js.
    destruct (is_mounted i (world r)) eqn:Hm.
    + destruct (is_mounted_Some _ _ Hm) as [f Hf].
      by apply (unmount_js_agree r i f).
    + injection E as <-. by destruct r.
Qed.

Lemma runOps_js_agree (ops : list Op) (r : Realm) :
  Inv (world r) → forallb op_ordinary ops = true →
  ∃ w', runOps ops (world r) = Some (tt, w') ∧ Inv w' ∧
        runOps_js ops r = Returns tt (mkRealm w' (fn_value r)).
Proof.
  revert r. induction ops as [|op ops IH]; intros r I Ho.
  - exists (world r). split; [done|]. split; [done|]. by destruct r.
  - simpl in Ho. apply andb_prop in Ho as [Ho Hops].
    destruct (exec_js_agree op r I Ho) as (w1 & E1 & I1 & J1).
    destruct (IH (mkRealm w1 (fn_value r)) I1 Hops) as (w' & E & I' & J').
    exists w'. split; [|split; [done|]].
    + unfold runOps. simpl. by run_step E1.
    + unfold runOps_js. simpl. by jrun_step J1.
Qed.

(** X8.  No sequence of [initGS], [getGS], [setGS] calls and of mounts,
    renders, effect commits and unmounts of components using [useGS] throws,
    as long as every key passed is ordinary (not a property name of
    [Object.prototype]): whenever the effect or the cleanup reads
    [GS[key].listeners], [GS[key]] is an entry.  On such sequences the
    object-level functions do exactly what the registry of own properties
    does, and the functions of [Object.prototype] are left alone. *)
Theorem runOps_never_throws (ops : list Op) :
  forallb op_ordinary ops = true →
  ∃ w, runOps_js ops realm0 = Returns tt (mkRealm w ∅) ∧
       runOps ops world0 = Some (tt, w).
Proof.
  intros Ho.
  destruct (runOps_js_agree ops realm0 Inv_world0 Ho) as (w & E & _ & Ej).
  by exists w.
Qed.

Lemma runOps_never_throws_witness :
  ∃ w, runOps_js [OpInitGS {["K" := VNum 1]}; OpMount "K" VUndefined; OpCommit 0;
                  OpSetGS "K" (VNum 2); OpRender 0 "K2" VNull; OpCommit 0;
                  OpUnmount 0; OpGetGS "K3"] realm0
       = Returns tt (mkRealm w ∅).
Proof.
  assert (Ho : forallb op_ordinary
                 [OpInitGS {["K" := VNum 1]}; OpMount "K" VUndefined; OpCommit 0;
                  OpSetGS "K" (VNum 2); OpRender 0 "K2" VNull; OpCommit 0;
                  OpUnmount 0; OpGetGS "K3"] = true)
    by (vm_compute; reflexivity).
  destruct (runOps_never_throws _ Ho) as (w & E & _).
  exists w. exact E.
Defined.

(** With a name that [GS] inherits, the hook throws: a component that
    renders [useGS("toString", 1)] finds the inherited function, and the
    commit of its effect throws a [TypeError] on
    [GS[key].listeners.add]. *)
Lemma effect_inherited_name_throws :
  ∃ r, runOps_js [OpMount "toString" (VNum 1); OpCommit 0] realm0 = Throws r.
Proof. eexists. vm_compute. reflexivity. Qed.
